(** * keras_retinanet.losses: focal loss, box overlap and repulsion loss

    A shallow embedding of [keras_retinanet/losses.py], and of the choice
    of the custom objects and the mean of the average precisions in [main]
    of [keras_retinanet/bin/evaluate.py].

    Conventions of the embedding.
    - A tensor entry (a [floatx] number) is a real number and [+ - * /],
      [K.maximum], [K.minimum] and [K.abs] are the operations of [R]; rounding
      and overflow are not modelled.  A quotient whose divisor is zero is
      whatever [Rdiv] makes of it, where the source has an infinity or NaN:
      a theorem that bounds such a quotient assumes that its divisor is
      not 0.
    - [K.log] and [K.max] over an empty axis are the two places where the
      source produces a value that is not a real number out of real inputs;
      their results live in [tval], which adds the two infinities and NaN.
    - A tensor of rank 2 is a record of its column count and its rows, so
      that [K.shape(t)[1]] is defined for a tensor without rows.
    - An operation of TensorFlow that raises (an index out of range, a
      [top_k] with too few columns) returns [None]. *)

From Stdlib Require Import Reals Lra Lia ZArith.
From Stdlib Require String Ascii.
From stdpp Require Import base option list.

Open Scope R_scope.

(** The comparisons of tensor entries are decided by the order of [R]. *)
#[global] Instance Rlt_decision (a b : R) : Decision (a < b) := Rlt_dec a b.
#[global] Instance Rle_decision (a b : R) : Decision (a <= b) := Rle_dec a b.
#[global] Instance Req_decision : EqDecision R := Req_dec_T.

(** ** Values that need not be finite *)

Inductive tval : Type :=
| Fin (r : R)
| PInf
| NInf
| NaN.

Definition is_finite (v : tval) : bool :=
  match v with Fin _ => true | _ => false end.

(** [-v] *)
Definition tneg (v : tval) : tval :=
  match v with
  | Fin r => Fin (- r)
  | PInf => NInf
  | NInf => PInf
  | NaN => NaN
  end.

(** [v + w] *)
Definition tadd (v w : tval) : tval :=
  match v, w with
  | Fin a, Fin b => Fin (a + b)
  | NaN, _ | _, NaN => NaN
  | PInf, NInf | NInf, PInf => NaN
  | PInf, _ | _, PInf => PInf
  | NInf, _ | _, NInf => NInf
  end.

(** [v - w] *)
Definition tsub (v w : tval) : tval := tadd v (tneg w).

(** [v / n] for [n] the float of a tensor dimension: never negative, and
    the positive zero when it is zero. *)
Definition tdiv_dim (v : tval) (n : nat) : tval :=
  match v, n with
  | Fin r, O =>
    if decide (0 < r) then PInf else if decide (r < 0) then NInf else NaN
  | Fin r, _ => Fin (r / INR n)
  | _, _ => v
  end.

(** [K.sum] of a vector of such values. *)
Definition tsum (l : list tval) : tval := foldr tadd (Fin 0) l.

(** [K.greater(v, c)] for a real constant [c]. *)
Definition tgreater (v : tval) (c : R) : bool :=
  match v with
  | Fin r => bool_decide (c < r)
  | PInf => true
  | NInf | NaN => false
  end.

(** [K.log(x)]: minus infinity at 0, NaN below. *)
Definition K_log (x : R) : tval :=
  if decide (0 < x) then Fin (ln x)
  else if decide (x = 0) then NInf
  else NaN.

(** [K.max] along an axis: the maximum of the row, minus infinity for an
    empty one. *)
Definition K_max (l : list R) : tval :=
  match l with
  | [] => NInf
  | x :: l' => Fin (foldl Rmax x l')
  end.

(** ** Tensors of rank 2 *)

Record tensor : Type := Tensor {
  t_cols : nat;
  t_rows : list (list R)
}.

(** [K.shape(t)[0]] and [K.shape(t)[1]] *)
Definition shape0 (t : tensor) : nat := length (t_rows t).
Definition shape1 (t : tensor) : nat := t_cols t.

(** [t[i, j]] *)
Definition entry (t : tensor) (i j : nat) : option R :=
  t_rows t !! i ≫= (.!! j).

(** Broadcasting a binary operation over a column [M,1] and a row [1,N]:
    the source writes [op(col, K.transpose(col'))]. *)
Definition outer (f : R → R → R) (col row : list R) : tensor :=
  Tensor (length row) (map (λ a, map (f a) row) col).

(** An operation between two tensors of the same shape, entry by entry. *)
Definition ew2 (f : R → R → R) (a b : tensor) : tensor :=
  Tensor (t_cols a) (zip_with (zip_with f) (t_rows a) (t_rows b)).

(** An operation on every entry (a tensor and a scalar, or a unary one). *)
Definition ew1 (f : R → R) (a : tensor) : tensor :=
  Tensor (t_cols a) (map (map f) (t_rows a)).

(** ** Boxes *)

(** A row of a [(n, 4)] tensor "with x1, y1, x2, y2 point order". *)
Record box : Type := Box { x1 : R; y1 : R; x2 : R; y2 : R }.

(** [bbox_overlap_iou(bboxes1, bboxes2)] *)
Definition bbox_overlap_iou (bboxes1 bboxes2 : list box) : tensor :=
  let '(x11, y11, x12, y12) :=
    (map x1 bboxes1, map y1 bboxes1, map x2 bboxes1, map y2 bboxes1) in
  let '(x21, y21, x22, y22) :=
    (map x1 bboxes2, map y1 bboxes2, map x2 bboxes2, map y2 bboxes2) in
  let xI1 := outer Rmax x11 x21 in
  let yI1 := outer Rmax y11 y21 in
  let xI2 := outer Rmin x12 x22 in
  let yI2 := outer Rmin y12 y22 in
  let inter_area :=
    ew2 Rmult (ew1 (λ d, d + 1) (ew2 Rminus xI2 xI1))
              (ew1 (λ d, d + 1) (ew2 Rminus yI2 yI1)) in
  let bboxes1_area :=
    zip_with Rmult (map (λ d, d + 1) (zip_with Rminus x12 x11))
                   (map (λ d, d + 1) (zip_with Rminus y12 y11)) in
  let bboxes2_area :=
    zip_with Rmult (map (λ d, d + 1) (zip_with Rminus x22 x21))
                   (map (λ d, d + 1) (zip_with Rminus y22 y21)) in
  let union := ew2 Rminus (outer Rplus bboxes1_area bboxes2_area) inter_area in
  ew1 (λ q, Rmax q 0) (ew2 Rdiv inter_area union).

(** [t / col] for a tensor [t] of shape [M,N] and a column [col] of shape
    [N,1], under the broadcasting rules: the shapes agree when N = 1, when
    M = N, or when M = 1; any other pair of shapes raises.  The column is
    indexed by the ROW of the result. *)
Definition div_by_column (t : tensor) (col : list R) : option tensor :=
  match col with
  | [g] => Some (ew1 (λ q, q / g) t)
  | _ =>
    if decide (shape0 t = length col) then
      Some (Tensor (t_cols t)
                   (zip_with (λ r g, map (λ q, q / g) r) (t_rows t) col))
    else
      match t_rows t with
      | [r] => Some (Tensor (t_cols t) (map (λ g, map (λ q, q / g) r) col))
      | _ => None
      end
  end.

(** [bbox_iog(predicted, ground_truth)] *)
Definition bbox_iog (predicted ground_truth : list box) : option tensor :=
  let '(x11, y11, x12, y12) :=
    (map x1 predicted, map y1 predicted, map x2 predicted, map y2 predicted) in
  let '(x21, y21, x22, y22) :=
    (map x1 ground_truth, map y1 ground_truth,
     map x2 ground_truth, map y2 ground_truth) in
  let xI1 := outer Rmax x11 x21 in
  let yI1 := outer Rmax y11 y21 in
  let xI2 := outer Rmin x12 x22 in
  let yI2 := outer Rmin y12 y22 in
  let intersect_area :=
    ew2 Rmult (ew1 (λ d, d + 1) (ew2 Rminus xI2 xI1))
              (ew1 (λ d, d + 1) (ew2 Rminus yI2 yI1)) in
  let gt_area :=
    zip_with Rmult (map (λ d, d + 1) (zip_with Rminus x22 x21))
                   (map (λ d, d + 1) (zip_with Rminus y22 y21)) in
  (* unlike in [bbox_overlap_iou], the source does not transpose [gt_area] *)
  ew1 (λ q, Rmax q 0) <$> div_by_column intersect_area gt_area.

(** The value the source computes for one pair of boxes. *)
Definition iou_pair (a b : box) : R :=
  let w := Rmin (x2 a) (x2 b) - Rmax (x1 a) (x1 b) + 1 in
  let h := Rmin (y2 a) (y2 b) - Rmax (y1 a) (y1 b) + 1 in
  let inter := w * h in
  let area_a := (x2 a - x1 a + 1) * (y2 a - y1 a + 1) in
  let area_b := (x2 b - x1 b + 1) * (y2 b - y1 b + 1) in
  Rmax (inter / (area_a + area_b - inter)) 0.

(** ** The backend primitives *)

(** Modelled from the spec: [backend.where] with one argument, which is in
    [keras_retinanet/backend], not in the sources at hand.  "Returns the
    index set where predicate holds, order-preserving."  Here for a vector. *)
Fixpoint nonzero_from (i : nat) (mask : list bool) : list nat :=
  match mask with
  | [] => []
  | c :: mask' =>
    if c then i :: nonzero_from (S i) mask' else nonzero_from (S i) mask'
  end.

Definition nonzero_indices (mask : list bool) : list nat :=
  nonzero_from 0 mask.

(** Modelled from the spec: the same [backend.where] for a mask of shape
    [B,N]; an index is a pair and the order is row-major. *)
Fixpoint nonzero_from2 (b : nat) (mask : list (list bool))
  : list (nat * nat) :=
  match mask with
  | [] => []
  | row :: mask' =>
    map (pair b) (nonzero_indices row) ++ nonzero_from2 (S b) mask'
  end.

Definition nonzero_indices2 (mask : list (list bool)) : list (nat * nat) :=
  nonzero_from2 0 mask.

(** Modelled from the spec: [backend.where] with three arguments,
    "element-wise choose a where condition true else b". *)
Definition select {A} (condition : bool) (a b : A) : A :=
  if condition then a else b.

(** Modelled from the spec: [backend.gather_nd] (and [K.tf.gather_nd]),
    "extract rows/elements at given index set"; an index out of range
    raises. *)
Definition gather_nd {A} (t : list A) (indices : list nat)
  : option (list A) :=
  mapM (λ i, t !! i) indices.

Definition gather_nd2 {A} (t : list (list A)) (indices : list (nat * nat))
  : option (list A) :=
  mapM (λ '(b, n), t !! b ≫= (.!! n)) indices.

(** ** Smooth L1 and smooth ln *)

(** The two branches of [smooth_l1_distance], for a non-negative difference
    [d]. *)
Definition l1_quadratic (sigma_squared d : R) : R :=
  0.5 * sigma_squared * d ^ 2.

Definition l1_linear (sigma_squared d : R) : R :=
  d - 0.5 / sigma_squared.

(** [smooth_l1_distance(y_true, y_pred, delta)] on one entry. *)
Definition smooth_l1_distance (y_true y_pred delta : R) : R :=
  let sigma_squared := delta ^ 2 in
  let regression_diff := y_pred - y_true in
  let regression_diff := Rabs regression_diff in
  select (bool_decide (regression_diff < 1.0 / sigma_squared))
         (l1_quadratic sigma_squared regression_diff)
         (l1_linear sigma_squared regression_diff).

(** [a / b] where the divisor is a difference of two floats: when it is
    zero it is the positive zero, and the quotient is an infinity of the
    sign of [a], or NaN. *)
Definition tdiv (a b : R) : tval :=
  if decide (b = 0) then
    if decide (0 < a) then PInf else if decide (a < 0) then NInf else NaN
  else Fin (a / b).

(** [smooth_ln(x, delta)] on one entry.  Both branches are computed and
    [backend.where] picks one. *)
Definition smooth_ln (x delta : R) : tval :=
  let cond := bool_decide (x <= delta) in
  let true_fn := tneg (K_log (1 - x)) in
  let false_fn := tsub (tdiv (x - delta) (1 - delta)) (K_log (1 - delta)) in
  select cond true_fn false_fn.

(** ** The terms of the repulsion loss *)

Definition coords (b : box) : list R := [x1 b; y1 b; x2 b; y2 b].

(** [K.argmax] along a row: the first index of the maximum; an empty row
    raises. *)
Fixpoint argmax_from (best_i : nat) (best : R) (i : nat) (l : list R) : nat :=
  match l with
  | [] => best_i
  | x :: l' =>
    if decide (best < x) then argmax_from i x (S i) l'
    else argmax_from best_i best (S i) l'
  end.

Definition argmax (l : list R) : option nat :=
  match l with
  | [] => None
  | x :: l' => Some (argmax_from 0 x 1 l')
  end.

(** [K.tf.nn.top_k(row, k=2)[1][1]]: the index of the second largest entry
    (the order among equal entries is by index); fewer than 2 columns
    raise. *)
Definition top2_second (l : list R) : option nat :=
  i ← argmax l;
  j ← argmax (delete i l);
  Some (if decide (j < i)%nat then j else S j).

(** [K.tf.cast(x, K.tf.int32)]: towards zero. *)
Definition cast_int32 (x : R) : Z :=
  if decide (0 <= x) then Int_part x else (- Int_part (- x))%Z.

(** [attraction_term(y_true, y_pred, iou_over_predicted)] *)
Definition attraction_term (y_true y_pred : list box)
    (iou_over_predicted : tensor) : option tval :=
  indices_highest_iou ← mapM argmax (t_rows iou_over_predicted);
  gt_highest_iou ← gather_nd y_true indices_highest_iou;
  (* [smooth_l1_distance(y_pred, gt_highest_iou)]: two tensors [k,4] *)
  guard (length y_pred = length gt_highest_iou);;
  let distance :=
    zip_with (λ p g, zip_with (λ a b, smooth_l1_distance a b 3)
                              (coords p) (coords g))
             y_pred gt_highest_iou in
  Some (tdiv_dim (Fin (foldr Rplus 0 (concat distance))) (length y_pred)).

(** [repulsion_term_gt(y_true, y_pred, iou_over_predicted, alpha)].
    [K.tf.cond] runs the one branch its predicate selects. *)
Definition repulsion_term_gt (y_true y_pred : list box)
    (iou_over_predicted : tensor) (alpha : R) : option tval :=
  let two_prediction_exists : option tval :=
    indices_2highest_iou ← mapM top2_second (t_rows iou_over_predicted);
    gt_2highest_iou ← gather_nd y_true indices_2highest_iou;
    guard (length y_pred = length gt_2highest_iou);;
    iog ← mapM (λ x, bbox_iog [x.1] [x.2]) (zip y_pred gt_2highest_iou);
    (* [iog] has shape [k,1,1]; squeezed, and summed entry by entry *)
    let iog := concat (concat (t_rows <$> iog)) in
    Some (tdiv_dim (tsum (map (λ x, smooth_ln x alpha) iog))
                   (length y_pred)) in
  let predictions_empty : option tval := Some (Fin 0) in
  if decide (1 < shape1 iou_over_predicted)%nat
  then two_prediction_exists else predictions_empty.

(** [repulsion_term_box(y_true, y_pred, betta)] *)
Definition repulsion_term_box (y_true y_pred : list box) (betta : R) : tval :=
  Fin 0.

(** ** The loss of one image *)

(** [K.tf.split(v, 4, axis=0)]: four parts of equal length; a length that 4
    does not divide raises. *)
Definition split4 (v : list R)
  : option (list R * list R * list R * list R) :=
  let k := (length v / 4)%nat in
  guard (length v mod 4 = 0)%nat;;
  Some (take k v, take k (drop k v), take k (drop (2 * k) v),
        drop (3 * k) v).

(** [l[start:stop]] for a [start] that is not negative; a negative [stop]
    counts from the end. *)
Definition slice_rows {A} (start : nat) (stop : Z) (l : list A) : list A :=
  let n := Z.of_nat (length l) in
  let stop := if decide (stop < 0)%Z then Z.max 0 (n + stop)
              else Z.min stop n in
  take (Z.to_nat stop - start) (drop start l).

(** [t[:, :4]] *)
Definition first4 (t : tensor) : tensor :=
  Tensor (t_cols t `min` 4) (map (take 4) (t_rows t)).

(** [y_true[1:annotations_len, :4]]: the boxes [regression_loss_one] takes
    for the ground truth. *)
Definition ground_truth_rows (annotations_len : Z) (y_true : tensor)
  : tensor :=
  first4 (Tensor (t_cols y_true) (slice_rows 1 annotations_len (t_rows y_true))).

(** [t / K.tf.tile([[image_w, image_h] * 2], [K.shape(t)[0], 1])]: the
    divisor has 4 columns, so [t] has 4, or 1 that is broadcast; any other
    width raises. *)
Definition divide_by_size (image_w image_h : R) (t : tensor)
  : option (list box) :=
  match t_cols t with
  | 4%nat =>
    mapM (λ r, match r with
               | [a; b; c; d] =>
                 Some (Box (a / image_w) (b / image_h)
                           (c / image_w) (d / image_h))
               | _ => None
               end) (t_rows t)
  | 1%nat =>
    mapM (λ r, match r with
               | [a] =>
                 Some (Box (a / image_w) (a / image_h)
                           (a / image_w) (a / image_h))
               | _ => None
               end) (t_rows t)
  | _ => None
  end.

(** The first three numbers of the first row: the width and the height of
    the image and [annotations_len]. *)
Definition unpack_row0 (y_true : tensor) : option (R * R * Z) :=
  row0 ← t_rows y_true !! 0%nat;
  '(image_w, image_h, annotations_len, _) ← split4 row0;
  image_w ← image_w !! 0%nat;
  image_h ← image_h !! 0%nat;
  annotations_len ← annotations_len !! 0%nat;
  Some (image_w, image_h, cast_int32 annotations_len).

(** The first half of [regression_loss_one(y_true, y_pred)], up to the
    filter on the IoU: the ground-truth boxes, the predicted boxes that are
    kept and their rows of [iou_over_predicted]. *)
Definition matched_predictions (y_true y_pred : tensor)
  : option (list box * list box * tensor) :=
  '(image_w, image_h, annotations_len) ← unpack_row0 y_true;
  let y_true := ground_truth_rows annotations_len y_true in
  let y_pred := first4 y_pred in
  y_true ← divide_by_size image_w image_h y_true;
  y_pred ← divide_by_size image_w image_h y_pred;
  let iou_over_predicted := bbox_overlap_iou y_pred y_true in
  let highest_iou := map K_max (t_rows iou_over_predicted) in
  let iou_gt_05 :=
    nonzero_indices (map (λ v, tgreater v 0.5) highest_iou) in
  y_pred ← gather_nd y_pred iou_gt_05;
  iou_rows ← gather_nd (t_rows iou_over_predicted) iou_gt_05;
  Some (y_true, y_pred, Tensor (t_cols iou_over_predicted) iou_rows).

(** [has_data] *)
Definition has_data (y_true : list box) (iou_over_predicted : tensor)
  : bool :=
  let has_data :=
    bool_decide (0 < shape0 iou_over_predicted)%nat
    && bool_decide (0 < shape1 iou_over_predicted)%nat in
  has_data && bool_decide (0 < length y_true)%nat.

(** [regression_loss_one(y_true, y_pred)] *)
Definition regression_loss_one (y_true y_pred : tensor) : option tval :=
  '(y_true, y_pred, iou_over_predicted) ← matched_predictions y_true y_pred;
  let alpha := 0.5 in
  if has_data y_true iou_over_predicted then
    a ← attraction_term y_true y_pred iou_over_predicted;
    r ← repulsion_term_gt y_true y_pred iou_over_predicted alpha;
    Some (tsum [a; r])
  else Some (Fin 0).

(** [repulsion_loss(y_true, y_pred)]: [K.map_fn] over the images of the
    batch. *)
Definition repulsion_loss (y_true y_pred : list tensor)
  : option (list tval) :=
  guard (length y_true = length y_pred);;
  mapM (λ x, regression_loss_one x.1 x.2) (zip y_true y_pred).

(** ** The focal loss *)

Section Focal.

(** [keras.backend.binary_crossentropy] on one entry and the power [**]
    of the backend: they are Keras's, and no property below depends on
    what they compute. *)
Variable binary_crossentropy : R → R → R.
Variable power : R → R → R.

(** [cls_loss] for one label and one score. *)
Definition focal_entry (alpha gamma label classification : R) : R :=
  let alpha_factor := 1 * alpha in
  let alpha_factor :=
    select (bool_decide (label = 1)) alpha_factor (1 - alpha_factor) in
  let focal_weight :=
    select (bool_decide (label = 1)) (1 - classification) classification in
  let focal_weight := alpha_factor * power focal_weight gamma in
  focal_weight * binary_crossentropy label classification.

(** [y_true[:, :, -1]], of shape [B,N]; an anchor without channels
    raises. *)
Definition anchor_states (y_true : list (list (list R)))
  : option (list (list R)) :=
  mapM (mapM (λ a : list R, last a)) y_true.

(** [backend.where(keras.backend.not_equal(anchor_state, -1))] *)
Definition not_ignored (anchor_state : list (list R)) : list (nat * nat) :=
  nonzero_indices2 (map (map (λ s, bool_decide (s ≠ -1))) anchor_state).

(** [backend.where(keras.backend.equal(anchor_state, 1))] *)
Definition positive_anchors (anchor_state : list (list R)) : list (nat * nat) :=
  nonzero_indices2 (map (map (λ s, bool_decide (s = 1))) anchor_state).

(** [_focal(y_true, y_pred)] of [focal(alpha, gamma)].  The target has
    shape [B,N,C+1] and the prediction [B,N,C], so that the gathered
    [labels] and [classification] have the same shape [k,C] and combine
    entry by entry. *)
Definition focal (alpha gamma : R) (y_true y_pred : list (list (list R)))
  : option R :=
  let labels := map (map (λ a : list R, take (length a - 1) a)) y_true in
  anchor_state ← anchor_states y_true;
  let classification := y_pred in
  (* filter out "ignore" anchors *)
  let indices := not_ignored anchor_state in
  labels ← gather_nd2 labels indices;
  classification ← gather_nd2 classification indices;
  (* compute the focal loss *)
  let cls_loss :=
    zip_with (zip_with (focal_entry alpha gamma)) labels classification in
  (* compute the normalizer: the number of positive anchors *)
  let normalizer := positive_anchors anchor_state in
  let normalizer := INR (length normalizer) in
  let normalizer := Rmax 1.0 normalizer in
  Some (foldr Rplus 0 (concat cls_loss) / normalizer).

End Focal.

(** ** Notions of the statements *)

(** The two boxes have no point in common. *)
Definition no_overlap (a b : box) : Prop :=
  x2 a < x1 b ∨ x2 b < x1 a ∨ y2 a < y1 b ∨ y2 b < y1 a.

(** The box is as the data model wants it: [x1 <= x2] and [y1 <= y2]. *)
Definition well_formed (a : box) : Prop := x1 a <= x2 a ∧ y1 a <= y2 a.

(** The width and the height of the intersection, under the [+1]
    convention of the source. *)
Definition extent_x (a b : box) : R :=
  Rmin (x2 a) (x2 b) - Rmax (x1 a) (x1 b) + 1.

Definition extent_y (a b : box) : R :=
  Rmin (y2 a) (y2 b) - Rmax (y1 a) (y1 b) + 1.

(** The union [bbox_overlap_iou] divides by: the two areas less the
    intersection, all under the [+1] convention. *)
Definition union_area (a b : box) : R :=
  (x2 a - x1 a + 1) * (y2 a - y1 a + 1) +
  (x2 b - x1 b + 1) * (y2 b - y1 b + 1) -
  extent_x a b * extent_y a b.

(** A target of one image: an image of 10 by 10 that announces 2
    annotations, followed by 2 boxes; and 1 predicted box, on the first. *)
Definition target_2_boxes : tensor :=
  Tensor 4 [[10; 10; 2; 0]; [0; 0; 4; 4]; [5; 5; 9; 9]].

Definition prediction_1_box : tensor := Tensor 4 [[0; 0; 4; 4]].

(** A target that announces no annotation and carries none. *)
Definition target_no_box : tensor := Tensor 4 [[10; 10; 0; 0]].

(** A tensor of rank 2 whose rows have the width it announces. *)
Definition rectangular (t : tensor) : Prop :=
  Forall (λ r, length r = t_cols t) (t_rows t).

(** ** Notions of the further statements *)

(** The box moved by [dx] and [dy]. *)
Definition translate (dx dy : R) (b : box) : box :=
  Box (x1 b + dx) (y1 b + dy) (x2 b + dx) (y2 b + dy).

(** The area of a box under the [+1] convention of the source. *)
Definition box_area (b : box) : R := (x2 b - x1 b + 1) * (y2 b - y1 b + 1).

(** The value [bbox_iog] computes for one predicted and one ground-truth
    box. *)
Definition iog_pair (p g : box) : R :=
  Rmax (extent_x p g * extent_y p g / box_area g) 0.

(** The box [g] lies in the box [p]. *)
Definition inside (g p : box) : Prop :=
  x1 p <= x1 g ∧ x2 g <= x2 p ∧ y1 p <= y1 g ∧ y2 g <= y2 p.

(** ** The smooth L1 loss *)

(** [regression_loss] of [_smooth_l1] for one entry of [regression] and the
    entry of [regression_target] at its place. *)
Definition smooth_l1_entry (sigma_squared regression regression_target : R)
  : R :=
  let regression_diff := regression - regression_target in
  let regression_diff := Rabs regression_diff in
  select (bool_decide (regression_diff < 1.0 / sigma_squared))
         (0.5 * sigma_squared * regression_diff ^ 2)
         (regression_diff - 0.5 / sigma_squared).

(** [y_true[:, :, 4]], of shape [B,N]; an anchor with fewer than 5 channels
    raises. *)
Definition regression_states (y_true : list (list (list R)))
  : option (list (list R)) :=
  mapM (mapM (λ a : list R, a !! 4%nat)) y_true.

(** [_smooth_l1(y_true, y_pred)] of [smooth_l1(sigma)].  The target has
    shape [B,N,5] and the prediction [B,N,4], so that the gathered
    [regression] and [regression_target] have the same shape [k,4].  On
    other shapes the subtraction of the source broadcasts or raises, and
    for a [sigma] of 0 its [1.0 / sigma_squared] raises, where this
    function returns a number: the theorems on it state the shapes and
    [sigma ≠ 0] where their conclusion needs them. *)
Definition smooth_l1 (sigma : R) (y_true y_pred : list (list (list R)))
  : option R :=
  let sigma_squared := sigma ^ 2 in
  (* separate target and state *)
  let regression := y_pred in
  let regression_target := map (map (take 4)) y_true in
  anchor_state ← regression_states y_true;
  (* filter out "ignore" anchors *)
  let indices := positive_anchors anchor_state in
  regression ← gather_nd2 regression indices;
  regression_target ← gather_nd2 regression_target indices;
  (* compute smooth L1 loss *)
  let regression_loss :=
    zip_with (zip_with (smooth_l1_entry sigma_squared))
             regression regression_target in
  (* compute the normalizer: the number of positive anchors *)
  let normalizer := (1 `max` length indices)%nat in
  let normalizer := INR normalizer in
  Some (foldr Rplus 0 (concat regression_loss) / normalizer).

(** ** [bin/evaluate.py] *)

Import String.StringSyntax Ascii.AsciiSyntax.
Delimit Scope string_scope with string.
Delimit Scope char_scope with char.

(** The modules [main] imports [custom_objects] from. *)
Inductive backbone : Type := Mobilenet | Resnet | Densenet | Vgg.

(** [s.startswith(sub)] *)
Fixpoint startswith (sub s : String.string) : bool :=
  match sub, s with
  | String.EmptyString, _ => true
  | String.String a sub', String.String b s' =>
    Ascii.eqb a b && startswith sub' s'
  | String.String _ _, String.EmptyString => false
  end.

(** [sub in s], for two strings. *)
Fixpoint contains (sub s : String.string) : bool :=
  startswith sub s ||
  match s with
  | String.EmptyString => false
  | String.String _ s' => contains sub s'
  end.

(** [os.path.basename(p)] of [posixpath]: what follows the last slash,
    [p[p.rfind('/') + 1:]]. *)
Fixpoint basename (p : String.string) : String.string :=
  match p with
  | String.EmptyString => String.EmptyString
  | String.String c p' =>
    if contains "/"%string p' then basename p'
    else if Ascii.eqb c "/"%char then p' else p
  end.

(** The lines of [main] that pick the custom objects for [args.model]:
    the first of the four names found in the base name of the path.  When
    none is found no [custom_objects] is bound, and the call of
    [keras.models.load_model] that follows raises. *)
Definition custom_objects (model : String.string) : option backbone :=
  let name := basename model in
  if contains "mobilenet"%string name then Some Mobilenet
  else if contains "resnet"%string name then Some Resnet
  else if contains "densenet"%string name then Some Densenet
  else if contains "vgg"%string name then Some Vgg
  else None.

(** The last line of [main]:
    [sum(average_precisions.values()) / len(average_precisions)] for the
    items of the dictionary; without an item the division raises. *)
Definition mean_average_precision (average_precisions : list (Z * R))
  : option R :=
  match length average_precisions with
  | O => None
  | S _ =>
    Some (foldr Rplus 0 (average_precisions.*2)
          / INR (length average_precisions))
  end.
(** * Properties *)

(** ** Entries of the broadcast operations *)

Lemma entry_outer f col row i j :
  entry (outer f col row) i j = a ← col !! i; b ← row !! j; Some (f a b).
Proof.
  unfold entry, outer; simpl.
  rewrite list_lookup_fmap.
  destruct (col !! i) as [a|]; simpl; [|done].
  rewrite list_lookup_fmap. by destruct (row !! j).
Qed.

Lemma entry_ew2 f a b i j :
  entry (ew2 f a b) i j = x ← entry a i j; y ← entry b i j; Some (f x y).
Proof.
  unfold entry, ew2; simpl.
  rewrite lookup_zip_with.
  destruct (t_rows a !! i) as [ra|]; simpl; [|done].
  destruct (t_rows b !! i) as [rb|]; simpl.
  - rewrite lookup_zip_with. destruct (ra !! j); simpl; [|done].
    by destruct (rb !! j).
  - by destruct (ra !! j).
Qed.

Lemma entry_ew1 f a i j :
  entry (ew1 f a) i j = f <$> entry a i j.
Proof.
  unfold entry, ew1; simpl.
  rewrite list_lookup_fmap.
  destruct (t_rows a !! i) as [ra|]; simpl; [|done].
  by rewrite list_lookup_fmap.
Qed.

Lemma entry_bbox_overlap_iou bboxes1 bboxes2 i j :
  entry (bbox_overlap_iou bboxes1 bboxes2) i j =
  a ← bboxes1 !! i; b ← bboxes2 !! j; Some (iou_pair a b).
Proof.
  unfold bbox_overlap_iou.
  rewrite entry_ew1, !entry_ew2, !entry_ew1, !entry_ew2, !entry_outer.
  rewrite !lookup_zip_with, !list_lookup_fmap, !lookup_zip_with,
    !list_lookup_fmap.
  destruct (bboxes1 !! i) as [a|]; simpl; [|done].
  destruct (bboxes2 !! j) as [b|]; simpl; [|done].
  done.
Qed.

Lemma shape1_bbox_overlap_iou bboxes1 bboxes2 :
  shape1 (bbox_overlap_iou bboxes1 bboxes2) = length bboxes2.
Proof. unfold bbox_overlap_iou, shape1; simpl. by rewrite length_map. Qed.

(** Evaluating [Rmax] and [Rmin] once the order of their arguments is
    known to [lra]. *)
Ltac minmax :=
  repeat match goal with
  | |- context [Rmax ?a ?b] =>
    first [ rewrite (Rmax_left a b) by lra | rewrite (Rmax_right a b) by lra ]
  | |- context [Rmin ?a ?b] =>
    first [ rewrite (Rmin_left a b) by lra | rewrite (Rmin_right a b) by lra ]
  end.

(** A decimal of the source is a quotient of two integers. *)
Ltac decimals :=
  unfold Q2R in *;
  cbn [QArith_base.Qnum QArith_base.Qden] in *.

(** ** The overlap of two boxes *)

(** A box against itself. *)
Lemma iou_pair_self (b : box) :
  0 < x2 b - x1 b + 1 → 0 < y2 b - y1 b + 1 → iou_pair b b = 1.
Proof.
  intros Hw Hh. unfold iou_pair. minmax.
  assert (Ha : 0 < (x2 b - x1 b + 1) * (y2 b - y1 b + 1))
    by (apply Rmult_lt_0_compat; lra).
  replace (_ / _) with 1 by (field; lra).
  minmax. done.
Qed.

Lemma bbox_overlap_iou_singleton (a b : box) :
  bbox_overlap_iou [a] [b] = Tensor 1 [[iou_pair a b]].
Proof. reflexivity. Qed.

(** C4: for a box of positive width and height under the [+1] convention,
    [bbox_overlap_iou] of the box against itself is exactly 1. *)
Theorem bbox_overlap_iou_self (bboxes : list box) (i : nat) (b : box) :
  bboxes !! i = Some b →
  0 < x2 b - x1 b + 1 →
  0 < y2 b - y1 b + 1 →
  entry (bbox_overlap_iou bboxes bboxes) i i = Some 1.
Proof.
  intros Hb Hw Hh.
  rewrite entry_bbox_overlap_iou, Hb; simpl.
  by rewrite iou_pair_self.
Qed.

Lemma bbox_overlap_iou_self_witness :
  entry (bbox_overlap_iou [Box 0 0 3 2] [Box 0 0 3 2]) 0 0 = Some 1.
Proof.
  apply (bbox_overlap_iou_self [Box 0 0 3 2] 0 (Box 0 0 3 2));
    [reflexivity | simpl; lra | simpl; lra].
Defined.

(** C5: [bbox_overlap_iou(A, B)[i, j]] is [bbox_overlap_iou(B, A)[j, i]]. *)
Theorem bbox_overlap_iou_transpose (A B : list box) (i j : nat) :
  entry (bbox_overlap_iou A B) i j = entry (bbox_overlap_iou B A) j i.
Proof.
  rewrite !entry_bbox_overlap_iou.
  destruct (A !! i) as [a|], (B !! j) as [b|]; simpl; try done.
  f_equal. unfold iou_pair.
  rewrite (Rmin_comm (x2 a)), (Rmax_comm (x1 a)),
    (Rmin_comm (y2 a)), (Rmax_comm (y1 a)).
  f_equal. f_equal. lra.
Qed.

(** C2 as stated fails: two boxes half a unit apart have no point in
    common and an IoU of 1/7. *)
Lemma bbox_overlap_iou_apart_positive :
  ¬ (∀ a b : box, no_overlap a b →
       entry (bbox_overlap_iou [a] [b]) 0 0 = Some 0).
Proof.
  intros H.
  specialize (H (Box 0 0 1 1) (Box 1.5 0 2.5 1)).
  rewrite entry_bbox_overlap_iou in H; simpl in H.
  assert (Hno : no_overlap (Box 0 0 1 1) (Box 1.5 0 2.5 1))
    by (left; simpl; lra).
  specialize (H Hno). injection H as H. revert H.
  unfold iou_pair; simpl. minmax. decimals.
  replace (_ / _) with (1 / 7) by (field; lra).
  minmax. lra.
Qed.

(** C2, amended: an entry of [bbox_overlap_iou] whose union is not 0 is at
    least 0; and the entry is exactly 0 for two well-formed boxes whose
    intersection, under the [+1] convention, has an extent that is not
    positive along one axis and an extent that is not negative along the
    other (their union is then at least 2). *)
Theorem bbox_overlap_iou_nonneg_and_zero (A B : list box) (i j : nat)
    (a b : box) :
  A !! i = Some a →
  B !! j = Some b →
  (union_area a b ≠ 0 →
   ∃ v, entry (bbox_overlap_iou A B) i j = Some v ∧ 0 <= v) ∧
  (well_formed a → well_formed b →
   (extent_x a b <= 0 ∧ 0 <= extent_y a b) ∨
   (extent_y a b <= 0 ∧ 0 <= extent_x a b) →
   entry (bbox_overlap_iou A B) i j = Some 0).
Proof.
  intros Ha Hb. rewrite entry_bbox_overlap_iou, Ha, Hb; simpl. split.
  - intros _. eexists; split; [done|]. unfold iou_pair. apply Rmax_r.
  - intros [Hax Hay] [Hbx Hby] Hsep. f_equal.
    unfold iou_pair. fold (extent_x a b) (extent_y a b).
    assert (Hi : extent_x a b * extent_y a b <= 0) by
      (destruct Hsep as [[? ?]|[? ?]]; nra).
    assert (Haa : 1 <= (x2 a - x1 a + 1) * (y2 a - y1 a + 1)) by nra.
    assert (Hbb : 1 <= (x2 b - x1 b + 1) * (y2 b - y1 b + 1)) by nra.
    apply Rmax_right. unfold Rdiv.
    match goal with |- _ * / ?u <= 0 =>
      assert (Hu : 0 < / u) by (apply Rinv_0_lt_compat; lra)
    end.
    nra.
Qed.

Lemma bbox_overlap_iou_nonneg_and_zero_witness :
  (∃ v, entry (bbox_overlap_iou [Box 0 0 1 1] [Box 3 0 4 1]) 0 0 = Some v ∧
        0 <= v) ∧
  entry (bbox_overlap_iou [Box 0 0 1 1] [Box 3 0 4 1]) 0 0 = Some 0.
Proof.
  destruct (bbox_overlap_iou_nonneg_and_zero
              [Box 0 0 1 1] [Box 3 0 4 1] 0 0 (Box 0 0 1 1) (Box 3 0 4 1)
              eq_refl eq_refl) as [Hnonneg Hzero].
  split.
  - apply Hnonneg. unfold union_area, extent_x, extent_y; simpl.
    minmax. lra.
  - apply Hzero.
    + split; simpl; lra.
    + split; simpl; lra.
    + left. unfold extent_x, extent_y; simpl. minmax. lra.
Defined.

(** Two boxes apart along both axes: both extents of the intersection are
    negative, their product is positive, and so is the value. *)
Lemma bbox_overlap_iou_diagonal :
  extent_x (Box 0 0 100 100) (Box 102 102 103 103) = -1 ∧
  extent_y (Box 0 0 100 100) (Box 102 102 103 103) = -1 ∧
  entry (bbox_overlap_iou [Box 0 0 100 100] [Box 102 102 103 103]) 0 0 =
    Some (1 / 10204).
Proof.
  unfold extent_x, extent_y; simpl.
  rewrite entry_bbox_overlap_iou; simpl. unfold iou_pair; simpl.
  minmax. split; [lra|]. split; [lra|]. f_equal.
  replace (_ / _) with (1 / 10204) by (field; lra).
  minmax. done.
Qed.

(** ** Smooth L1 and smooth ln *)

(** Around a difference of [1 / sigma²] the function moves no more than
    its argument. *)
Lemma smooth_l1_distance_lipschitz_at_transition (sigma y_true y_pred p : R) :
  0 < sigma →
  Rabs (y_pred - y_true) = 1 / sigma ^ 2 →
  Rabs (smooth_l1_distance y_true p sigma -
        smooth_l1_distance y_true y_pred sigma) <= Rabs (p - y_pred).
Proof.
  intros Hs Hd.
  assert (Hs2 : 0 < sigma ^ 2) by (apply pow_lt; lra).
  pose proof (Rabs_triang_inv2 (p - y_true) (y_pred - y_true)) as Htri.
  replace (p - y_true - (y_pred - y_true)) with (p - y_pred) in Htri by lra.
  pose proof (Rabs_pos (p - y_true)) as Hx.
  unfold smooth_l1_distance, select, l1_quadratic, l1_linear.
  rewrite Hd in *.
  rewrite (bool_decide_eq_false_2 (1 / sigma ^ 2 < 1.0 / sigma ^ 2))
    by (decimals; lra).
  assert (Ht : sigma ^ 2 * (1 / sigma ^ 2) = 1) by (field; lra).
  assert (Htp : 0 < 1 / sigma ^ 2) by (apply Rdiv_lt_0_compat; lra).
  replace (1.0 / sigma ^ 2) with (1 / sigma ^ 2) by (decimals; lra).
  replace (0.5 / sigma ^ 2) with (/ 2 * (1 / sigma ^ 2))
    by (decimals; field; lra).
  replace 0.5 with (/ 2) by (decimals; lra).
  set (t := 1 / sigma ^ 2) in *. set (x := Rabs (p - y_true)) in *.
  set (s2 := sigma ^ 2) in *. clearbody x t. clearbody s2.
  eapply Rle_trans; [|exact Htri].
  destruct (decide (x < t)) as [Hlt|Hge].
  - rewrite bool_decide_eq_true_2 by done.
    rewrite (Rabs_left (x - t)) by lra.
    assert (Hsq : s2 * (x - t) ^ 2 = s2 * x ^ 2 - 2 * x + t) by nra.
    assert (Hsq0 : 0 <= s2 * (x - t) ^ 2)
      by (apply Rmult_le_pos; [lra|apply pow2_ge_0]).
    assert (Hxt : s2 * x ^ 2 <= t) by nra.
    apply Rabs_le. lra.
  - rewrite bool_decide_eq_false_2 by done.
    replace (x - / 2 * t - (t - / 2 * t)) with (x - t) by lra.
    apply Rle_refl.
Qed.

(** C6: where the difference is exactly [1 / sigma²] the quadratic and the
    linear branch of [smooth_l1_distance] have the same value, which is the
    value of the function, and the function is continuous there. *)
Theorem smooth_l1_distance_branches_agree (sigma y_true y_pred : R) :
  0 < sigma →
  Rabs (y_pred - y_true) = 1 / sigma ^ 2 →
  l1_quadratic (sigma ^ 2) (Rabs (y_pred - y_true)) =
    l1_linear (sigma ^ 2) (Rabs (y_pred - y_true)) ∧
  smooth_l1_distance y_true y_pred sigma =
    l1_linear (sigma ^ 2) (Rabs (y_pred - y_true)) ∧
  continuity_pt (λ p, smooth_l1_distance y_true p sigma) y_pred.
Proof.
  intros Hs Hd. split; [|split].
  - rewrite Hd. unfold l1_quadratic, l1_linear. decimals. field. lra.
  - unfold smooth_l1_distance. rewrite Hd.
    rewrite bool_decide_eq_false_2; [done|].
    decimals. lra.
  - intros eps Heps. exists eps. split; [done|].
    intros p [_ Hp]. simpl in *. unfold Rdist in *.
    eapply Rle_lt_trans; [|exact Hp].
    by apply smooth_l1_distance_lipschitz_at_transition.
Qed.

Lemma smooth_l1_distance_branches_agree_witness :
  l1_quadratic (1 ^ 2) (Rabs (3 - 2)) = l1_linear (1 ^ 2) (Rabs (3 - 2)) ∧
  smooth_l1_distance 2 3 1 = l1_linear (1 ^ 2) (Rabs (3 - 2)) ∧
  continuity_pt (λ p, smooth_l1_distance 2 p 1) 3.
Proof.
  apply (smooth_l1_distance_branches_agree 1 2 3); [lra|].
  replace (3 - 2) with 1 by lra. rewrite Rabs_R1. lra.
Defined.

(** C10: with [delta = 0.5], [smooth_ln] of an [x] in [[0, 1]] is a real
    number: the logarithm of [1 - x] when [x <= 0.5], the linear branch
    above, also at [x = 1], where the branch of the logarithm that
    [backend.where] drops is plus infinity. *)
Theorem smooth_ln_finite (x : R) :
  0 <= x <= 1 →
  smooth_ln x 0.5 =
    Fin (if decide (x <= 0.5) then - ln (1 - x)
         else (x - 0.5) / (1 - 0.5) - ln (1 - 0.5)) ∧
  is_finite (smooth_ln x 0.5) = true ∧
  tneg (K_log (1 - 1)) = PInf.
Proof.
  intros [H0 H1].
  assert (Hx : smooth_ln x 0.5 =
    Fin (if decide (x <= 0.5) then - ln (1 - x)
         else (x - 0.5) / (1 - 0.5) - ln (1 - 0.5))).
  { unfold smooth_ln, select.
    destruct (decide (x <= 0.5)) as [Hle|Hgt].
    - rewrite bool_decide_eq_true_2 by done.
      unfold K_log. rewrite decide_True by (decimals; lra). done.
    - rewrite bool_decide_eq_false_2 by done.
      unfold tdiv, K_log.
      rewrite (decide_False (P := 1 - 0.5 = 0)) by (decimals; lra).
      rewrite (decide_True (P := 0 < 1 - 0.5)) by (decimals; lra).
      done. }
  split; [done|]. split; [by rewrite Hx|].
  unfold K_log.
  rewrite decide_False by lra. rewrite decide_True by lra. done.
Qed.

Lemma smooth_ln_finite_witness :
  smooth_ln 1 0.5 =
    Fin (if decide (1 <= 0.5) then - ln (1 - 1)
         else (1 - 0.5) / (1 - 0.5) - ln (1 - 0.5)) ∧
  is_finite (smooth_ln 1 0.5) = true ∧
  tneg (K_log (1 - 1)) = PInf.
Proof. apply (smooth_ln_finite 1). lra. Defined.

(** ** The rows taken for the ground truth *)

Lemma cast_int32_INR (n : nat) : cast_int32 (INR n) = Z.of_nat n.
Proof.
  unfold cast_int32. rewrite decide_True by apply pos_INR.
  apply Int_part_INR.
Qed.

Lemma unpack_row0_four (W H L x : R) (cols : nat) (rows : list (list R)) :
  unpack_row0 (Tensor cols ([W; H; L; x] :: rows)) =
  Some (W, H, cast_int32 L).
Proof. reflexivity. Qed.

(** With [n] announced in the first row, the slice [1:n] keeps the rows 1
    to [n - 1]. *)
Lemma ground_truth_rows_slice (n cols : nat) (row0 : list R)
    (rows : list (list R)) :
  t_rows (ground_truth_rows (Z.of_nat n) (Tensor cols (row0 :: rows))) =
  map (take 4) (take (n - 1) rows).
Proof.
  unfold ground_truth_rows, first4, slice_rows; cbn [t_rows t_cols].
  rewrite decide_False by lia. f_equal.
  change (drop 1 (row0 :: rows)) with rows. cbn [length].
  destruct (decide (n ≤ S (length rows))%nat) as [Hle|Hgt].
  - rewrite Z.min_l by lia. f_equal. lia.
  - rewrite Z.min_r by lia. rewrite !take_ge by lia. done.
Qed.

Lemma cast_int32_2 : cast_int32 2 = 2%Z.
Proof. replace 2 with (INR 2) by (simpl; lra). apply cast_int32_INR. Qed.

(** C1: for a target that announces 2 annotations and carries 2 boxes, the
    slice [1:annotations_len] of [regression_loss_one] keeps the first box
    only: the rows 1 to [annotations_len - 1], not 1 to [annotations_len]. *)
Theorem regression_loss_one_ground_truth_rows :
  unpack_row0 target_2_boxes = Some (10, 10, 2%Z) ∧
  ground_truth_rows 2 target_2_boxes = Tensor 4 [[0; 0; 4; 4]] ∧
  ∀ (n cols : nat) (row0 : list R) (rows : list (list R)),
    t_rows (ground_truth_rows (Z.of_nat n) (Tensor cols (row0 :: rows))) =
    map (take 4) (take (n - 1) rows).
Proof.
  split; [|split].
  - unfold target_2_boxes. rewrite unpack_row0_four. by rewrite cast_int32_2.
  - reflexivity.
  - apply ground_truth_rows_slice.
Qed.

(** ** The loss of one image *)

Lemma nonzero_from_bounds (mask : list bool) (i : nat) :
  Forall (λ k, i ≤ k < i + length mask)%nat (nonzero_from i mask).
Proof.
  revert i. induction mask as [|c mask IH]; intros i; simpl; [constructor|].
  assert (Hrest : Forall (λ k, i ≤ k < i + S (length mask))%nat
                         (nonzero_from (S i) mask)).
  { eapply Forall_impl; [apply (IH (S i))|]. simpl. lia. }
  destruct c; [constructor; [lia|]|]; done.
Qed.

Lemma gather_nd_defined {A} (t : list A) (indices : list nat) :
  Forall (λ i, i < length t)%nat indices → is_Some (gather_nd t indices).
Proof.
  intros H. apply mapM_is_Some. eapply Forall_impl; [exact H|].
  intros i Hi; simpl. by apply lookup_lt_is_Some.
Qed.

Lemma gather_nd_length {A} (t k : list A) (indices : list nat) :
  gather_nd t indices = Some k → length k = length indices.
Proof. intros H. symmetry. by eapply length_mapM. Qed.

(** The tensor [iou_over_predicted] that reaches the two terms has a row
    for every kept prediction and a column for every ground-truth box. *)
Lemma matched_predictions_shape y_true y_pred gt pred iou :
  matched_predictions y_true y_pred = Some (gt, pred, iou) →
  shape0 iou = length pred ∧ shape1 iou = length gt.
Proof.
  unfold matched_predictions. intros H.
  apply bind_Some in H as ([[w h] len] & _ & H).
  apply bind_Some in H as (g & _ & H).
  apply bind_Some in H as (p & _ & H).
  apply bind_Some in H as (p' & Hp & H).
  apply bind_Some in H as (r' & Hr & H).
  injection H as <- <- <-.
  apply gather_nd_length in Hp, Hr. split.
  - unfold shape0; cbn [t_rows]. congruence.
  - apply (shape1_bbox_overlap_iou p g).
Qed.

Lemma shape0_bbox_overlap_iou bboxes1 bboxes2 :
  shape0 (bbox_overlap_iou bboxes1 bboxes2) = length bboxes1.
Proof.
  unfold bbox_overlap_iou, shape0, ew1, ew2, outer; cbn [t_rows].
  repeat (rewrite ?length_map, ?length_zip_with).
  by rewrite !Nat.min_id.
Qed.

Lemma divide_by_size_defined (image_w image_h : R) (t : tensor) :
  t_cols t = 4%nat → rectangular t →
  is_Some (divide_by_size image_w image_h t).
Proof.
  intros Hc Hr. unfold divide_by_size. rewrite Hc.
  apply mapM_is_Some. eapply Forall_impl; [exact Hr|].
  intros r Hlen. rewrite Hc in Hlen. simpl.
  destruct r as [|a [|b [|c [|d [|e r]]]]]; simpl in Hlen; try lia.
  by eexists.
Qed.

Lemma first4_rectangular (t : tensor) :
  (4 ≤ t_cols t)%nat → rectangular t →
  t_cols (first4 t) = 4%nat ∧ rectangular (first4 t).
Proof.
  intros Hc Hr. unfold rectangular, first4; cbn [t_cols t_rows].
  split; [by apply Nat.min_r|].
  change (map (take 4) (t_rows t)) with (take 4 <$> t_rows t).
  apply Forall_fmap. eapply Forall_impl; [exact Hr|].
  intros r Hlen. simpl in *. rewrite (Nat.min_r (t_cols t) 4) by done.
  rewrite length_take_le; [done|lia].
Qed.

Lemma ground_truth_rows_rectangular (annotations_len : Z) (t : tensor) :
  (4 ≤ t_cols t)%nat → rectangular t →
  t_cols (ground_truth_rows annotations_len t) = 4%nat ∧
  rectangular (ground_truth_rows annotations_len t).
Proof.
  intros Hc Hr. apply first4_rectangular; [done|].
  unfold rectangular, slice_rows; cbn [t_cols t_rows].
  by apply Forall_take, Forall_drop.
Qed.

(** On a target of 4 columns with its first row and a prediction of at
    least 4 columns, the first half of [regression_loss_one] raises
    nothing. *)
Lemma matched_predictions_defined (y_true y_pred : tensor) :
  t_cols y_true = 4%nat → rectangular y_true → (0 < shape0 y_true)%nat →
  (4 ≤ t_cols y_pred)%nat → rectangular y_pred →
  is_Some (matched_predictions y_true y_pred).
Proof.
  intros Hc Hr Hrows Hpc Hpr.
  destruct y_true as [c rows]. cbn [t_cols] in Hc. subst c.
  unfold shape0 in Hrows; cbn [t_rows] in Hrows.
  destruct rows as [|row0 rows]; [simpl in Hrows; lia|].
  assert (H0 : length row0 = 4%nat)
    by (apply (Forall_lookup_1 _ _ 0%nat row0 Hr); done).
  destruct row0 as [|W [|H [|L [|x [|e row0]]]]]; try done.
  unfold matched_predictions. rewrite unpack_row0_four.
  cbn [mbind option_bind].
  set (y := Tensor 4 ([W; H; L; x] :: rows)) in *.
  destruct (ground_truth_rows_rectangular (cast_int32 L) y) as [Hgc Hgr];
    [simpl; lia|done|].
  destruct (divide_by_size_defined W H _ Hgc Hgr) as [gt ->].
  destruct (first4_rectangular y_pred Hpc Hpr) as [Hfc Hfr].
  destruct (divide_by_size_defined W H _ Hfc Hfr) as [pred ->].
  cbn [mbind option_bind].
  set (indices := nonzero_indices _).
  assert (Hidx : Forall (λ i, i < length pred)%nat indices).
  { subst indices. unfold nonzero_indices.
    eapply Forall_impl; [apply nonzero_from_bounds|].
    intros i [_ Hi]. cbn [Nat.add] in Hi.
    rewrite !length_map in Hi.
    pose proof (shape0_bbox_overlap_iou pred gt) as Hs.
    unfold shape0 in Hs. by rewrite Hs in Hi. }
  destruct (gather_nd_defined pred indices Hidx) as [pred' ->].
  destruct (gather_nd_defined (t_rows (bbox_overlap_iou pred gt)) indices)
    as [rows' ->]; [|done].
  pose proof (shape0_bbox_overlap_iou pred gt) as Hs.
  unfold shape0 in Hs. by rewrite Hs.
Qed.

(** With fewer than 2 columns in [iou_over_predicted],
    [repulsion_term_gt] is the branch [predictions_empty]. *)
Lemma repulsion_term_gt_few_columns y_true y_pred iou alpha :
  (shape1 iou < 2)%nat →
  repulsion_term_gt y_true y_pred iou alpha = Some (Fin 0).
Proof.
  intros H. unfold repulsion_term_gt.
  rewrite decide_False by lia. done.
Qed.

Lemma tsum_with_zero (a : tval) : tsum [a; Fin 0] = a.
Proof.
  unfold tsum; simpl. destruct a; simpl; try done.
  f_equal. lra.
Qed.

(** C3: with fewer than 2 ground-truth boxes (so with exactly 1)
    [repulsion_term_gt] is exactly 0, and the loss of the image is its
    attraction term, whatever that is. *)
Theorem repulsion_term_gt_fewer_than_2 (y_true y_pred : tensor)
    (gt pred : list box) (iou : tensor) :
  matched_predictions y_true y_pred = Some (gt, pred, iou) →
  (length gt < 2)%nat →
  repulsion_term_gt gt pred iou 0.5 = Some (Fin 0) ∧
  regression_loss_one y_true y_pred =
    if has_data gt iou then attraction_term gt pred iou else Some (Fin 0).
Proof.
  intros Hm Hlen.
  destruct (matched_predictions_shape _ _ _ _ _ Hm) as [_ Hc].
  assert (Hr : repulsion_term_gt gt pred iou 0.5 = Some (Fin 0))
    by (apply repulsion_term_gt_few_columns; lia).
  split; [done|].
  unfold regression_loss_one. rewrite Hm; simpl.
  destruct (has_data gt iou); [|done].
  rewrite Hr. destruct (attraction_term gt pred iou) as [a|]; simpl; [|done].
  f_equal. apply (tsum_with_zero a).
Qed.

(** C8: without a ground-truth box, without a kept prediction or without a
    column in [iou_over_predicted], the loss of the image is exactly 0, and
    nothing raises. *)
Theorem regression_loss_one_no_data (y_true y_pred : tensor)
    (gt pred : list box) (iou : tensor) :
  matched_predictions y_true y_pred = Some (gt, pred, iou) →
  length gt = 0%nat ∨ length pred = 0%nat ∨ shape1 iou = 0%nat →
  regression_loss_one y_true y_pred = Some (Fin 0).
Proof.
  intros Hm Hz.
  destruct (matched_predictions_shape _ _ _ _ _ Hm) as [Hr Hc].
  unfold regression_loss_one. rewrite Hm; simpl.
  assert (Hd : has_data gt iou = false).
  { unfold has_data.
    destruct Hz as [Hz|[Hz|Hz]].
    - rewrite (bool_decide_eq_false_2 (0 < length gt)%nat) by lia.
      apply andb_false_r.
    - rewrite (bool_decide_eq_false_2 (0 < shape0 iou)%nat) by lia. done.
    - rewrite (bool_decide_eq_false_2 (0 < shape1 iou)%nat) by lia.
      by rewrite andb_false_r. }
  by rewrite Hd.
Qed.

(** ** The loss of one image on three inputs *)

Lemma unpack_target_2_boxes :
  unpack_row0 target_2_boxes = Some (10, 10, 2%Z).
Proof.
  unfold target_2_boxes. rewrite unpack_row0_four. by rewrite cast_int32_2.
Qed.

Lemma ground_truth_target_2_boxes :
  ground_truth_rows 2 target_2_boxes = Tensor 4 [[0; 0; 4; 4]].
Proof. reflexivity. Qed.

(** One ground-truth box is left of the two, and the prediction is kept. *)
Lemma matched_predictions_target_2_boxes :
  matched_predictions target_2_boxes prediction_1_box =
  Some ([Box (0 / 10) (0 / 10) (4 / 10) (4 / 10)],
        [Box (0 / 10) (0 / 10) (4 / 10) (4 / 10)],
        Tensor 1 [[1]]).
Proof.
  unfold matched_predictions. rewrite unpack_target_2_boxes.
  cbn [mbind option_bind]. rewrite ground_truth_target_2_boxes.
  cbn -[bbox_overlap_iou Rdiv].
  rewrite bbox_overlap_iou_singleton.
  rewrite iou_pair_self by (simpl; lra).
  cbn -[Rdiv].
  rewrite bool_decide_eq_true_2 by (decimals; lra).
  reflexivity.
Qed.

Lemma unpack_target_no_box :
  unpack_row0 target_no_box = Some (10, 10, 0%Z).
Proof.
  unfold target_no_box. rewrite unpack_row0_four.
  do 2 f_equal. apply (cast_int32_INR 0).
Qed.

(** No ground-truth box: the maximum of an empty row of IoUs is minus
    infinity, and no prediction is kept. *)
Lemma matched_predictions_target_no_box :
  matched_predictions target_no_box prediction_1_box =
  Some ([], [], Tensor 0 []).
Proof.
  unfold matched_predictions. rewrite unpack_target_no_box.
  reflexivity.
Qed.

Lemma repulsion_term_gt_fewer_than_2_witness :
  repulsion_term_gt [Box (0 / 10) (0 / 10) (4 / 10) (4 / 10)]
    [Box (0 / 10) (0 / 10) (4 / 10) (4 / 10)] (Tensor 1 [[1]]) 0.5 =
    Some (Fin 0) ∧
  regression_loss_one target_2_boxes prediction_1_box =
    if has_data [Box (0 / 10) (0 / 10) (4 / 10) (4 / 10)] (Tensor 1 [[1]])
    then attraction_term [Box (0 / 10) (0 / 10) (4 / 10) (4 / 10)]
           [Box (0 / 10) (0 / 10) (4 / 10) (4 / 10)] (Tensor 1 [[1]])
    else Some (Fin 0).
Proof.
  apply (repulsion_term_gt_fewer_than_2 target_2_boxes prediction_1_box
           _ _ _ matched_predictions_target_2_boxes).
  simpl. lia.
Defined.

Lemma regression_loss_one_no_data_witness :
  regression_loss_one target_no_box prediction_1_box = Some (Fin 0).
Proof.
  apply (regression_loss_one_no_data target_no_box prediction_1_box
           [] [] (Tensor 0 []) matched_predictions_target_no_box).
  left. reflexivity.
Defined.

(** ** The focal loss *)

Lemma elem_of_nonzero_from (mask : list bool) (i k : nat) :
  k ∈ nonzero_from i mask ↔ (i ≤ k)%nat ∧ mask !! (k - i)%nat = Some true.
Proof.
  revert i. induction mask as [|c mask IH]; intros i; simpl.
  - rewrite elem_of_nil. split; [done|]. by intros [_ ?].
  - assert (Hrest : k ∈ nonzero_from (S i) mask ↔
                    (i < k)%nat ∧ (c :: mask) !! (k - i)%nat = Some true).
    { rewrite IH. split.
      - intros [Hle Hk]. split; [lia|].
        replace (k - i)%nat with (S (k - S i)) by lia. done.
      - intros [Hlt Hk]. split; [lia|].
        replace (k - i)%nat with (S (k - S i)) in Hk by lia. done. }
    destruct c.
    + rewrite elem_of_cons, Hrest. split.
      * intros [->|[Hlt Hk]]; [|split; [lia|done]].
        split; [lia|]. by rewrite Nat.sub_diag.
      * intros [Hle Hk].
        destruct (decide (k = i)) as [->|Hne]; [by left|].
        right. split; [lia|done].
    + rewrite Hrest. split.
      * intros [Hlt Hk]. split; [lia|done].
      * intros [Hle Hk].
        destruct (decide (k = i)) as [->|Hne].
        -- rewrite Nat.sub_diag in Hk. done.
        -- split; [lia|done].
Qed.

Lemma elem_of_nonzero_from2 (mask : list (list bool)) (b0 b n : nat) :
  (b, n) ∈ nonzero_from2 b0 mask ↔
  (b0 ≤ b)%nat ∧ mask !! (b - b0)%nat ≫= (.!! n) = Some true.
Proof.
  revert b0. induction mask as [|row mask IH]; intros b0; simpl.
  - rewrite elem_of_nil. split; [done|]. by intros [_ ?].
  - rewrite elem_of_app, IH.
    assert (Hrow : (b, n) ∈ map (pair b0) (nonzero_indices row) ↔
                   b = b0 ∧ row !! n = Some true).
    { change (map (pair b0) (nonzero_indices row))
        with (pair b0 <$> nonzero_indices row).
      rewrite list_elem_of_fmap. unfold nonzero_indices.
      setoid_rewrite elem_of_nonzero_from.
      setoid_rewrite Nat.sub_0_r. split.
      - intros (k & [= -> ->] & _ & Hk). done.
      - intros [-> Hn]. exists n. split; [done|]. split; [lia|done]. }
    rewrite Hrow. split.
    + intros [[-> Hn]|[Hle Hn]].
      * split; [lia|]. by rewrite Nat.sub_diag.
      * split; [lia|].
        replace (b - b0)%nat with (S (b - S b0)) by lia. done.
    + intros [Hle Hn].
      destruct (decide (b = b0)) as [->|Hne].
      * left. rewrite Nat.sub_diag in Hn. done.
      * right. split; [lia|].
        replace (b - b0)%nat with (S (b - S b0)) in Hn by lia. done.
Qed.

(** The anchors that [backend.where] keeps are those whose state passes
    the test. *)
Lemma elem_of_nonzero_indices2_test (test : R → bool)
    (anchor_state : list (list R)) (b n : nat) :
  (b, n) ∈ nonzero_indices2 (map (map test) anchor_state) ↔
  ∃ s, anchor_state !! b ≫= (.!! n) = Some s ∧ test s = true.
Proof.
  unfold nonzero_indices2. rewrite elem_of_nonzero_from2, Nat.sub_0_r.
  change (map (map test) anchor_state) with (map test <$> anchor_state).
  rewrite list_lookup_fmap.
  destruct (anchor_state !! b) as [row|]; simpl.
  - change (map test row) with (test <$> row).
    rewrite list_lookup_fmap.
    destruct (row !! n) as [s|]; simpl.
    + split.
      * intros [_ [= Ht]]. by exists s.
      * intros (s' & [= <-] & Ht). split; [lia|by rewrite Ht].
    + split; [by intros [_ ?]|by intros (s' & ? & _)].
  - split; [by intros [_ ?]|by intros (s' & ? & _)].
Qed.

Lemma nonzero_indices2_none (test : R → bool) (anchor_state : list (list R)) :
  Forall (Forall (λ s, test s = false)) anchor_state →
  nonzero_indices2 (map (map test) anchor_state) = [].
Proof.
  intros Hall.
  destruct (nonzero_indices2 (map (map test) anchor_state))
    as [|[b n] rest] eqn:Hidx; [done|].
  assert (Hin : (b, n) ∈ nonzero_indices2 (map (map test) anchor_state))
    by (rewrite Hidx; apply elem_of_cons; by left).
  apply elem_of_nonzero_indices2_test in Hin as (s & Hs & Ht).
  destruct (anchor_state !! b) as [row|] eqn:Hrow; simpl in Hs; [|done].
  pose proof (Forall_lookup_1 _ _ _ _ Hall Hrow) as Hr.
  pose proof (Forall_lookup_1 _ _ _ _ Hr Hs) as Hf. simpl in Hf.
  congruence.
Qed.

Lemma anchor_states_all (s : R) (y_true : list (list (list R))) :
  Forall (Forall (λ a, last a = Some s)) y_true →
  ∃ anchor_state, anchor_states y_true = Some anchor_state ∧
                  Forall (Forall (λ s', s' = s)) anchor_state.
Proof.
  intros Hall. unfold anchor_states.
  induction Hall as [|image y_true Himage _ IH].
  - exists []. by split.
  - destruct IH as (st & Hst & Hall').
    assert (Hrow : ∃ row, mapM (λ a : list R, last a) image = Some row ∧
                          Forall (λ s', s' = s) row).
    { clear -Himage. induction Himage as [|a image Ha _ IH].
      - exists []. by split.
      - destruct IH as (row & Hrow & Hall). exists (s :: row).
        split; [|by constructor].
        cbn. rewrite Ha. cbn. by rewrite Hrow. }
    destruct Hrow as (row & Hrow & Hall_row).
    exists (row :: st). split; [|by constructor].
    cbn. rewrite Hrow. cbn. by rewrite Hst.
Qed.

(** C7: when every anchor of the target is ignored (state -1), the focal
    loss of a prediction of the matching shape is exactly 0: no anchor is
    gathered, the sum is empty, and the normalizer is [max(1, 0) = 1]. *)
Theorem focal_all_ignored (binary_crossentropy power : R → R → R)
    (alpha gamma : R) (y_true y_pred : list (list (list R))) :
  Forall (Forall (λ a, last a = Some (-1))) y_true →
  Forall2 (Forall2 (λ a p, length a = S (length p))) y_true y_pred →
  focal binary_crossentropy power alpha gamma y_true y_pred = Some 0.
Proof.
  intros Hall _.
  destruct (anchor_states_all (-1) y_true Hall) as (st & Hst & Hst_all).
  unfold focal. rewrite Hst. cbn [mbind option_bind].
  assert (Hkept : not_ignored st = []).
  { apply nonzero_indices2_none.
    eapply Forall_impl; [exact Hst_all|]. intros row Hrow.
    eapply Forall_impl; [exact Hrow|]. intros s ->.
    by apply bool_decide_eq_false_2; intros []. }
  assert (Hpos : positive_anchors st = []).
  { apply nonzero_indices2_none.
    eapply Forall_impl; [exact Hst_all|]. intros row Hrow.
    eapply Forall_impl; [exact Hrow|]. intros s ->.
    apply bool_decide_eq_false_2. lra. }
  rewrite Hkept, Hpos. cbn. f_equal.
  rewrite Rmax_left by (decimals; lra). decimals. lra.
Qed.

Lemma focal_all_ignored_witness :
  focal (λ t p, - (t * ln p + (1 - t) * ln (1 - p))) Rpower 0.25 2.0
        [[[1; 0; -1]; [0; 0; -1]]] [[[0.9; 0.1]; [0.2; 0.8]]] = Some 0.
Proof.
  apply focal_all_ignored.
  - repeat constructor.
  - repeat constructor.
Defined.



(** * Further properties *)

(** ** [smooth_l1_distance] *)

(** X1: [smooth_l1_distance] does not tell its first argument from its
    second, so that [attraction_term], which passes the prediction where the
    function expects the target, computes the same distance. *)
Theorem smooth_l1_distance_sym (a b delta : R) :
  smooth_l1_distance a b delta = smooth_l1_distance b a delta.
Proof.
  unfold smooth_l1_distance. by rewrite (Rabs_minus_sym b a).
Qed.

(** X2: for a [delta] that is not 0 the distance is never negative, is 0
    exactly when the two numbers are equal, and is at most their absolute
    difference. *)
Theorem smooth_l1_distance_bounds (y_true y_pred delta : R) :
  delta ≠ 0 →
  0 <= smooth_l1_distance y_true y_pred delta <= Rabs (y_pred - y_true) ∧
  (smooth_l1_distance y_true y_pred delta = 0 ↔ y_true = y_pred).
Proof.
  intros Hd.
  assert (Hs2 : 0 < delta ^ 2) by (simpl; nra).
  pose proof (Rabs_pos (y_pred - y_true)) as Hx.
  assert (Hzero : Rabs (y_pred - y_true) = 0 ↔ y_true = y_pred).
  { split.
    - intros H. destruct (Req_dec (y_pred - y_true) 0) as [He|Hne]; [lra|].
      apply Rabs_no_R0 in Hne. done.
    - intros ->. rewrite Rminus_diag. apply Rabs_R0. }
  unfold smooth_l1_distance, select, l1_quadratic, l1_linear.
  replace (1.0 / delta ^ 2) with (1 / delta ^ 2) by (decimals; lra).
  replace (0.5 / delta ^ 2) with (/ 2 * (1 / delta ^ 2))
    by (decimals; field; lra).
  replace 0.5 with (/ 2) by (decimals; lra).
  assert (Ht : delta ^ 2 * (1 / delta ^ 2) = 1) by (field; lra).
  assert (Htp : 0 < 1 / delta ^ 2) by (apply Rdiv_lt_0_compat; lra).
  rewrite <- Hzero.
  set (t := 1 / delta ^ 2) in *. set (x := Rabs (y_pred - y_true)) in *.
  set (s2 := delta ^ 2) in *. clearbody x t. clearbody s2.
  destruct (decide (x < t)) as [Hlt|Hge].
  - rewrite bool_decide_eq_true_2 by done.
    assert (Hsx : 0 <= s2 * x) by (apply Rmult_le_pos; lra).
    assert (Hsx1 : s2 * x <= 1) by nra.
    split; [split; nra|]. split; [|intros ->; lra].
    intros H. assert (Hx2 : s2 * x ^ 2 = 0) by lra.
    apply Rmult_integral in Hx2 as [?|Hx2]; [lra|].
    simpl in Hx2. nra.
  - rewrite bool_decide_eq_false_2 by done.
    split; [split; lra|]. split; lra.
Qed.

Lemma smooth_l1_distance_bounds_witness :
  0 <= smooth_l1_distance 2 5 3 <= Rabs (5 - 2) ∧
  (smooth_l1_distance 2 5 3 = 0 ↔ 2 = 5).
Proof. apply (smooth_l1_distance_bounds 2 5 3). lra. Defined.

(** ** [smooth_ln] *)

Lemma ln_le_mono (x y : R) : 0 < x → x <= y → ln x <= ln y.
Proof.
  intros Hx [Hlt| ->]; [|lra]. left. by apply ln_increasing.
Qed.

Lemma Rdiv_nonneg (a b : R) : 0 <= a → 0 < b → 0 <= a / b.
Proof.
  intros Ha Hb. apply Rmult_le_pos; [done|].
  left. by apply Rinv_0_lt_compat.
Qed.

(** The value of [smooth_ln] for a [delta] below 1. *)
Lemma smooth_ln_below_1 (x delta : R) :
  delta < 1 →
  smooth_ln x delta =
    Fin (if decide (x <= delta) then - ln (1 - x)
         else (x - delta) / (1 - delta) - ln (1 - delta)).
Proof.
  intros Hd. unfold smooth_ln, select.
  destruct (decide (x <= delta)) as [Hle|Hgt].
  - rewrite bool_decide_eq_true_2 by done.
    unfold K_log. rewrite decide_True by lra. done.
  - rewrite bool_decide_eq_false_2 by done.
    unfold tdiv, K_log.
    rewrite (decide_False (P := 1 - delta = 0)) by lra.
    rewrite (decide_True (P := 0 < 1 - delta)) by lra.
    done.
Qed.

(** X3: for every [delta] below 1, [smooth_ln] of any real number is a real
    number: the branch of the logarithm is taken only where its argument is
    positive. *)
Theorem smooth_ln_finite_below_1 (x delta : R) :
  delta < 1 → is_finite (smooth_ln x delta) = true.
Proof. intros Hd. by rewrite smooth_ln_below_1. Qed.

Lemma smooth_ln_finite_below_1_witness :
  is_finite (smooth_ln 7 0.9) = true.
Proof. apply smooth_ln_finite_below_1. decimals. lra. Defined.

(** X4: for a [delta] of 1 or more, [smooth_ln] at 1 is plus infinity: the
    bound on [delta] above is needed. *)
Theorem smooth_ln_infinite_at_1 (delta : R) :
  1 <= delta → smooth_ln 1 delta = PInf.
Proof.
  intros Hd. unfold smooth_ln, select.
  rewrite bool_decide_eq_true_2 by done.
  unfold K_log. rewrite decide_False by lra. rewrite decide_True by lra.
  done.
Qed.

Lemma smooth_ln_infinite_at_1_witness : smooth_ln 1 1 = PInf.
Proof. apply smooth_ln_infinite_at_1. lra. Defined.

(** X5: for a [delta] in [[0, 1)], [smooth_ln] is 0 at 0 and never negative
    on the numbers that are not negative. *)
Theorem smooth_ln_nonneg (x delta : R) :
  0 <= delta < 1 →
  0 <= x →
  smooth_ln 0 delta = Fin 0 ∧
  ∃ r, smooth_ln x delta = Fin r ∧ 0 <= r.
Proof.
  intros [Hd0 Hd1] Hx. split.
  - rewrite smooth_ln_below_1 by done. rewrite decide_True by done.
    rewrite Rminus_0_r, ln_1. f_equal. lra.
  - rewrite smooth_ln_below_1 by done. eexists; split; [done|].
    destruct (decide (x <= delta)) as [Hle|Hgt].
    + pose proof (ln_le_mono (1 - x) 1) as Hln. rewrite ln_1 in Hln. lra.
    + pose proof (ln_le_mono (1 - delta) 1) as Hln. rewrite ln_1 in Hln.
      assert (0 <= (x - delta) / (1 - delta))
        by (apply Rdiv_nonneg; lra).
      lra.
Qed.

Lemma smooth_ln_nonneg_witness :
  smooth_ln 0 0.5 = Fin 0 ∧ ∃ r, smooth_ln 2 0.5 = Fin r ∧ 0 <= r.
Proof. apply smooth_ln_nonneg; decimals; lra. Defined.

(** X6: for a [delta] below 1, [smooth_ln] never decreases: the linear
    branch starts where the logarithm stops, at the same value. *)
Theorem smooth_ln_monotone (x y delta : R) :
  delta < 1 →
  x <= y →
  ∃ rx ry, smooth_ln x delta = Fin rx ∧ smooth_ln y delta = Fin ry ∧
           rx <= ry.
Proof.
  intros Hd Hxy. rewrite !smooth_ln_below_1 by done.
  eexists _, _. split; [done|]. split; [done|].
  destruct (decide (x <= delta)) as [Hx|Hx],
           (decide (y <= delta)) as [Hy|Hy]; try lra.
  - pose proof (ln_le_mono (1 - y) (1 - x)). lra.
  - pose proof (ln_le_mono (1 - delta) (1 - x)).
    assert (0 <= (y - delta) / (1 - delta))
      by (apply Rdiv_nonneg; lra).
    lra.
  - assert ((x - delta) / (1 - delta) <= (y - delta) / (1 - delta)).
    { unfold Rdiv. apply Rmult_le_compat_r; [|lra].
      left. apply Rinv_0_lt_compat. lra. }
    lra.
Qed.

Lemma smooth_ln_monotone_witness :
  ∃ rx ry, smooth_ln 0.2 0.5 = Fin rx ∧ smooth_ln 0.8 0.5 = Fin ry ∧
           rx <= ry.
Proof. apply smooth_ln_monotone; decimals; lra. Defined.

(** ** [bbox_overlap_iou] *)

Lemma rectangular_outer f col row : rectangular (outer f col row).
Proof.
  unfold rectangular, outer; cbn [t_cols t_rows].
  change (map (λ a, map (f a) row) col) with ((λ a, map (f a) row) <$> col).
  apply Forall_fmap, Forall_forall. intros a _. simpl. apply length_map.
Qed.

Lemma rectangular_ew1 f a : rectangular a → rectangular (ew1 f a).
Proof.
  unfold rectangular, ew1; cbn [t_cols t_rows]. intros Ha.
  change (map (map f) (t_rows a)) with (map f <$> t_rows a).
  apply Forall_fmap. eapply Forall_impl; [exact Ha|].
  intros r Hr. simpl in *. by rewrite length_map.
Qed.

Lemma rectangular_ew2 f a b :
  rectangular a → rectangular b → t_cols a = t_cols b →
  rectangular (ew2 f a b).
Proof.
  unfold rectangular, ew2; cbn [t_cols t_rows]. intros Ha Hb Hc.
  apply Forall_lookup. intros i r Hi.
  apply lookup_zip_with_Some in Hi as (ra & rb & -> & Hra & Hrb).
  rewrite length_zip_with.
  pose proof (Forall_lookup_1 _ _ _ _ Ha Hra) as H1.
  pose proof (Forall_lookup_1 _ _ _ _ Hb Hrb) as H2.
  simpl in *. rewrite H1, H2, Hc. apply Nat.min_id.
Qed.

Lemma rectangular_bbox_overlap_iou bboxes1 bboxes2 :
  rectangular (bbox_overlap_iou bboxes1 bboxes2).
Proof.
  unfold bbox_overlap_iou.
  repeat first
    [ apply rectangular_ew1
    | apply rectangular_ew2
    | apply rectangular_outer ];
    cbn [t_cols ew1 ew2 outer];
    repeat (rewrite ?length_map, ?length_zip_with, ?Nat.min_id); done.
Qed.

(** X7: the tensor of [bbox_overlap_iou] has the shape its docstring
    gives: a row for every box of [bboxes1], and in every row an entry for
    every box of [bboxes2]. *)
Theorem bbox_overlap_iou_shape (bboxes1 bboxes2 : list box) :
  shape0 (bbox_overlap_iou bboxes1 bboxes2) = length bboxes1 ∧
  shape1 (bbox_overlap_iou bboxes1 bboxes2) = length bboxes2 ∧
  Forall (λ r, length r = length bboxes2)
         (t_rows (bbox_overlap_iou bboxes1 bboxes2)).
Proof.
  split; [apply shape0_bbox_overlap_iou|].
  split; [apply shape1_bbox_overlap_iou|].
  pose proof (rectangular_bbox_overlap_iou bboxes1 bboxes2) as Hr.
  unfold rectangular in Hr.
  eapply Forall_impl; [exact Hr|]. intros r Hlen. simpl in *.
  rewrite Hlen. apply (shape1_bbox_overlap_iou bboxes1 bboxes2).
Qed.

Lemma Rmin_shift (p q d : R) : Rmin (p + d) (q + d) = Rmin p q + d.
Proof.
  destruct (Rle_dec p q).
  - rewrite !Rmin_left by lra. done.
  - rewrite !Rmin_right by lra. done.
Qed.

Lemma Rmax_shift (p q d : R) : Rmax (p + d) (q + d) = Rmax p q + d.
Proof.
  destruct (Rle_dec p q).
  - rewrite !Rmax_right by lra. done.
  - rewrite !Rmax_left by lra. done.
Qed.

Lemma iou_pair_translate (dx dy : R) (a b : box) :
  iou_pair (translate dx dy a) (translate dx dy b) = iou_pair a b.
Proof.
  unfold iou_pair, translate; simpl.
  rewrite !Rmin_shift, !Rmax_shift.
  f_equal. f_equal; [f_equal; lra|].
  f_equal; [|f_equal; lra].
  f_equal; f_equal; lra.
Qed.

(** X8: moving every box of both sets by the same offset changes no entry
    of [bbox_overlap_iou]. *)
Theorem bbox_overlap_iou_translate (dx dy : R) (A B : list box) (i j : nat) :
  entry (bbox_overlap_iou (map (translate dx dy) A)
                          (map (translate dx dy) B)) i j =
  entry (bbox_overlap_iou A B) i j.
Proof.
  rewrite !entry_bbox_overlap_iou.
  change (map (translate dx dy) A) with (translate dx dy <$> A).
  change (map (translate dx dy) B) with (translate dx dy <$> B).
  rewrite !list_lookup_fmap.
  destruct (A !! i) as [a|], (B !! j) as [b|]; simpl; try done.
  by rewrite iou_pair_translate.
Qed.

Lemma extent_x_le (a b : box) :
  well_formed a → well_formed b →
  extent_x a b <= x2 a - x1 a + 1 ∧ extent_x a b <= x2 b - x1 b + 1.
Proof.
  intros [Ha _] [Hb _]. unfold extent_x.
  pose proof (Rmin_l (x2 a) (x2 b)). pose proof (Rmin_r (x2 a) (x2 b)).
  pose proof (Rmax_l (x1 a) (x1 b)). pose proof (Rmax_r (x1 a) (x1 b)).
  lra.
Qed.

Lemma extent_y_le (a b : box) :
  well_formed a → well_formed b →
  extent_y a b <= y2 a - y1 a + 1 ∧ extent_y a b <= y2 b - y1 b + 1.
Proof.
  intros [_ Ha] [_ Hb]. unfold extent_y.
  pose proof (Rmin_l (y2 a) (y2 b)). pose proof (Rmin_r (y2 a) (y2 b)).
  pose proof (Rmax_l (y1 a) (y1 b)). pose proof (Rmax_r (y1 a) (y1 b)).
  lra.
Qed.

(** X9: for two well-formed boxes whose intersection has no negative
    extent under the [+1] convention, the entry of [bbox_overlap_iou] lies
    between 0 and 1. *)
Theorem bbox_overlap_iou_at_most_1 (A B : list box) (i j : nat) (a b : box) :
  A !! i = Some a →
  B !! j = Some b →
  well_formed a → well_formed b →
  0 <= extent_x a b → 0 <= extent_y a b →
  ∃ v, entry (bbox_overlap_iou A B) i j = Some v ∧ 0 <= v <= 1.
Proof.
  intros Ha Hb Hwa Hwb Hx Hy.
  rewrite entry_bbox_overlap_iou, Ha, Hb; simpl.
  eexists; split; [done|]. split; [apply Rmax_r|].
  unfold iou_pair. fold (extent_x a b) (extent_y a b).
  destruct (extent_x_le a b Hwa Hwb) as [Hxa Hxb].
  destruct (extent_y_le a b Hwa Hwb) as [Hya Hyb].
  destruct Hwa as [Hwa1 Hwa2], Hwb as [Hwb1 Hwb2].
  set (w := extent_x a b) in *. set (h := extent_y a b) in *.
  assert (Hia : w * h <= (x2 a - x1 a + 1) * (y2 a - y1 a + 1)) by nra.
  assert (Hib : w * h <= (x2 b - x1 b + 1) * (y2 b - y1 b + 1)) by nra.
  assert (Haa : 1 <= (x2 a - x1 a + 1) * (y2 a - y1 a + 1)) by nra.
  apply Rmax_lub; [|lra].
  apply Rmult_le_reg_r with
    ((x2 a - x1 a + 1) * (y2 a - y1 a + 1) +
     (x2 b - x1 b + 1) * (y2 b - y1 b + 1) - w * h); [lra|].
  unfold Rdiv. rewrite Rmult_assoc, Rinv_l by lra. lra.
Qed.

Lemma bbox_overlap_iou_at_most_1_witness :
  ∃ v, entry (bbox_overlap_iou [Box 0 0 4 4] [Box 2 2 6 6]) 0 0 = Some v ∧
       0 <= v <= 1.
Proof.
  apply (bbox_overlap_iou_at_most_1 [Box 0 0 4 4] [Box 2 2 6 6] 0 0
           (Box 0 0 4 4) (Box 2 2 6 6) eq_refl eq_refl).
  - split; simpl; lra.
  - split; simpl; lra.
  - unfold extent_x; simpl. minmax. lra.
  - unfold extent_y; simpl. minmax. lra.
Defined.

(** ** [bbox_iog] *)

Lemma bbox_iog_singleton (p g : box) :
  bbox_iog [p] [g] = Some (Tensor 1 [[iog_pair p g]]).
Proof. reflexivity. Qed.

Lemma div_by_column_is_Some (t : tensor) (col : list R) :
  is_Some (div_by_column t col) ↔
  length col = 1%nat ∨ shape0 t = length col ∨ shape0 t = 1%nat.
Proof.
  unfold div_by_column, shape0.
  destruct col as [|g [|g' col]]; cbn [length].
  - destruct (decide (length (t_rows t) = 0%nat)) as [He|Hne].
    + split; [intros _; right; by left|intros _; by eexists].
    + destruct (t_rows t) as [|r [|r' rows]]; simpl in *.
      * done.
      * split; [intros _; right; by right|intros _; by eexists].
      * split; [intros [? [=]]|intros [?|[?|?]]; lia].
  - split; [intros _; by left|intros _; by eexists].
  - destruct (decide (length (t_rows t) = S (S (length col)))) as [He|Hne].
    + split; [intros _; right; by left|intros _; by eexists].
    + destruct (t_rows t) as [|r [|r' rows]]; simpl in *.
      * split; [intros [? [=]]|intros [?|[?|?]]; lia].
      * split; [intros _; right; by right|intros _; by eexists].
      * split; [intros [? [=]]|intros [?|[?|?]]; lia].
Qed.

(** X10: [bbox_iog] follows the broadcasting of [intersect_area / gt_area],
    where [gt_area] is a column that the source does not transpose: it
    returns a tensor when there is 1 ground-truth box, when there are as
    many predicted boxes as ground-truth boxes, or when there is 1 predicted
    box, and raises for any other pair of sizes. *)
Theorem bbox_iog_defined (predicted ground_truth : list box) :
  is_Some (bbox_iog predicted ground_truth) ↔
  length ground_truth = 1%nat ∨
  length predicted = length ground_truth ∨
  length predicted = 1%nat.
Proof.
  unfold bbox_iog. rewrite fmap_is_Some, div_by_column_is_Some.
  unfold shape0, ew2, ew1, outer; cbn [t_rows].
  repeat (rewrite ?length_map, ?length_zip_with, ?Nat.min_id).
  done.
Qed.

(** X11: when no ground-truth box has the area 0, by which the IoG
    divides, no entry of the tensor of [bbox_iog] is negative. *)
Theorem bbox_iog_nonneg (predicted ground_truth : list box) (t : tensor)
    (i j : nat) (v : R) :
  Forall (λ g, box_area g ≠ 0) ground_truth →
  bbox_iog predicted ground_truth = Some t →
  entry t i j = Some v →
  0 <= v.
Proof.
  unfold bbox_iog. intros _ Ht Hv.
  apply fmap_Some in Ht as (q & _ & ->).
  rewrite entry_ew1 in Hv. apply fmap_Some in Hv as (w & _ & ->).
  apply Rmax_r.
Qed.

Lemma bbox_iog_nonneg_witness : 0 <= iog_pair (Box 0 0 4 4) (Box 2 2 6 6).
Proof.
  apply (bbox_iog_nonneg [Box 0 0 4 4] [Box 2 2 6 6]
           (Tensor 1 [[iog_pair (Box 0 0 4 4) (Box 2 2 6 6)]]) 0 0).
  - constructor; [|constructor]. unfold box_area; simpl. lra.
  - apply bbox_iog_singleton.
  - reflexivity.
Defined.

(** The intersection is no wider and no higher than the second box, under
    the [+1] convention, whatever the first box. *)
Lemma extent_x_le_r (a b : box) : extent_x a b <= x2 b - x1 b + 1.
Proof.
  unfold extent_x.
  pose proof (Rmin_r (x2 a) (x2 b)). pose proof (Rmax_r (x1 a) (x1 b)).
  lra.
Qed.

Lemma extent_y_le_r (a b : box) : extent_y a b <= y2 b - y1 b + 1.
Proof.
  unfold extent_y.
  pose proof (Rmin_r (y2 a) (y2 b)). pose proof (Rmax_r (y1 a) (y1 b)).
  lra.
Qed.

(** X12: for one predicted box and one well-formed ground-truth box whose
    intersection has no negative extent, the IoG is at most 1; it is exactly
    1 when the ground-truth box lies in the predicted box. *)
Theorem bbox_iog_at_most_1 (p g : box) :
  well_formed g →
  0 <= extent_x p g → 0 <= extent_y p g →
  ∃ v, bbox_iog [p] [g] = Some (Tensor 1 [[v]]) ∧ 0 <= v <= 1 ∧
       (inside g p → v = 1).
Proof.
  intros Hwg Hx Hy. rewrite bbox_iog_singleton.
  eexists; split; [done|]. unfold iog_pair, box_area.
  pose proof (extent_x_le_r p g) as Hxg.
  pose proof (extent_y_le_r p g) as Hyg.
  destruct Hwg as [Hg1 Hg2].
  assert (Hga : 1 <= (x2 g - x1 g + 1) * (y2 g - y1 g + 1)) by nra.
  split; [split; [apply Rmax_r|]|].
  - assert (Hi : extent_x p g * extent_y p g <=
                 (x2 g - x1 g + 1) * (y2 g - y1 g + 1)) by nra.
    apply Rmax_lub; [|lra].
    apply Rmult_le_reg_r with ((x2 g - x1 g + 1) * (y2 g - y1 g + 1));
      [lra|].
    unfold Rdiv. rewrite Rmult_assoc, Rinv_l by lra. lra.
  - intros (Hi1 & Hi2 & Hi3 & Hi4).
    unfold extent_x, extent_y. minmax.
    replace (_ / _) with 1 by (field; lra).
    minmax. done.
Qed.

Lemma bbox_iog_at_most_1_witness :
  ∃ v, bbox_iog [Box 0 0 9 9] [Box 2 2 6 6] = Some (Tensor 1 [[v]]) ∧
       0 <= v <= 1 ∧ (inside (Box 2 2 6 6) (Box 0 0 9 9) → v = 1).
Proof.
  apply bbox_iog_at_most_1.
  - split; simpl; lra.
  - unfold extent_x; simpl. minmax. lra.
  - unfold extent_y; simpl. minmax. lra.
Defined.

(** X13: the penalty that [repulsion_term_gt] adds for one predicted box
    and one ground-truth box, [smooth_ln] of their IoG with the [alpha] of
    [regression_loss_one], is a real number that is not negative, whatever
    the two boxes, as long as the area of the ground-truth box, by which
    the IoG divides, is not 0. *)
Theorem smooth_ln_of_iog (p g : box) :
  box_area g ≠ 0 →
  ∃ r, smooth_ln (iog_pair p g) 0.5 = Fin r ∧ 0 <= r.
Proof.
  intros _. apply smooth_ln_nonneg.
  - decimals. lra.
  - apply Rmax_r.
Qed.

Lemma smooth_ln_of_iog_witness :
  ∃ r, smooth_ln (iog_pair (Box 0 0 4 4) (Box 2 2 6 6)) 0.5 = Fin r ∧ 0 <= r.
Proof. apply smooth_ln_of_iog. unfold box_area; simpl. lra. Defined.

Lemma entry_intersect_area (P G : list box) (i j : nat) :
  entry (ew2 Rmult
           (ew1 (λ d, d + 1)
              (ew2 Rminus (outer Rmin (map x2 P) (map x2 G))
                          (outer Rmax (map x1 P) (map x1 G))))
           (ew1 (λ d, d + 1)
              (ew2 Rminus (outer Rmin (map y2 P) (map y2 G))
                          (outer Rmax (map y1 P) (map y1 G))))) i j =
  p ← P !! i; g ← G !! j; Some (extent_x p g * extent_y p g).
Proof.
  rewrite entry_ew2, !entry_ew1, !entry_ew2, !entry_outer.
  rewrite !list_lookup_fmap.
  destruct (P !! i) as [p|]; simpl; [|done].
  destruct (G !! j) as [g|]; simpl; done.
Qed.

Lemma lookup_gt_area (G : list box) (i : nat) :
  zip_with Rmult
    (map (λ d, d + 1) (zip_with Rminus (map x2 G) (map x1 G)))
    (map (λ d, d + 1) (zip_with Rminus (map y2 G) (map y1 G))) !! i =
  box_area <$> G !! i.
Proof.
  rewrite lookup_zip_with, !list_lookup_fmap, !lookup_zip_with,
    !list_lookup_fmap.
  destruct (G !! i) as [g|]; simpl; done.
Qed.

(** X14: with as many predicted boxes as ground-truth boxes, the entry
    [[i, j]] of [bbox_iog] is the intersection of the predicted box [i] and
    the ground-truth box [j] over the area of the ground-truth box [i], not
    [j]: the column [gt_area] is broadcast along the rows.  The one call in
    [repulsion_term_gt] passes 1 box and 1 box, where [i] is [j]. *)
Theorem bbox_iog_square (predicted ground_truth : list box) (t : tensor)
    (i j : nat) (p g gi : box) :
  bbox_iog predicted ground_truth = Some t →
  length predicted = length ground_truth →
  predicted !! i = Some p →
  ground_truth !! j = Some g →
  ground_truth !! i = Some gi →
  entry t i j = Some (Rmax (extent_x p g * extent_y p g / box_area gi) 0).
Proof.
  unfold bbox_iog. intros Ht Hlen Hp Hg Hgi.
  apply fmap_Some in Ht as (q & Hq & ->).
  rewrite entry_ew1.
  pose proof (entry_intersect_area predicted ground_truth i j) as Hin.
  rewrite Hp, Hg in Hin; simpl in Hin.
  pose proof (lookup_gt_area ground_truth i) as Hcol.
  rewrite Hgi in Hcol; simpl in Hcol.
  set (inter := ew2 Rmult _ _) in *.
  assert (Hcl : length (zip_with Rmult
             (map (λ d, d + 1)
                (zip_with Rminus (map x2 ground_truth) (map x1 ground_truth)))
             (map (λ d, d + 1)
                (zip_with Rminus (map y2 ground_truth) (map y1 ground_truth))))
           = length ground_truth)
    by (repeat (rewrite ?length_map, ?length_zip_with, ?Nat.min_id); done).
  assert (Hs0 : shape0 inter = length predicted).
  { subst inter. unfold shape0, ew2, ew1, outer; cbn [t_rows].
    repeat (rewrite ?length_map, ?length_zip_with, ?Nat.min_id). done. }
  clearbody inter.
  set (col := zip_with Rmult _ _) in *.
  unfold div_by_column in Hq.
  destruct col as [|c [|c' rest]] eqn:Hc; [done| |].
  - injection Hq as <-. rewrite entry_ew1, Hin; simpl.
    assert (i = 0%nat) as ->.
    { apply lookup_lt_Some in Hgi. simpl in Hcl. lia. }
    simpl in Hcol. by injection Hcol as ->.
  - rewrite decide_True in Hq by (rewrite Hs0, Hcl; done).
    injection Hq as <-.
    unfold entry in *; cbn [t_rows].
    destruct (t_rows inter !! i) as [r|] eqn:Hr; simpl in Hin; [|done].
    rewrite lookup_zip_with, Hr, Hcol; simpl.
    change (map (λ q : R, q / box_area gi) r)
      with ((λ q : R, q / box_area gi) <$> r).
    rewrite list_lookup_fmap, Hin. done.
Qed.

Lemma bbox_iog_square_witness :
  ∃ t, bbox_iog [Box 0 0 1 1; Box 0 0 3 3] [Box 0 0 1 1; Box 0 0 3 3] =
         Some t ∧
       entry t 0 1 =
         Some (Rmax (extent_x (Box 0 0 1 1) (Box 0 0 3 3) *
                     extent_y (Box 0 0 1 1) (Box 0 0 3 3) /
                     box_area (Box 0 0 1 1)) 0).
Proof.
  eexists. split; [reflexivity|].
  eapply (bbox_iog_square [Box 0 0 1 1; Box 0 0 3 3]
            [Box 0 0 1 1; Box 0 0 3 3] _ 0 1);
    reflexivity.
Defined.

(** ** [attraction_term] and [repulsion_term_gt] *)

Lemma argmax_from_bound (l : list R) (best_i i : nat) (best : R) :
  (best_i < i)%nat →
  (argmax_from best_i best i l < i + length l)%nat.
Proof.
  revert best_i i best. induction l as [|x l IH]; intros best_i i best Hb.
  - simpl. lia.
  - simpl. destruct (decide (best < x)).
    + pose proof (IH i (S i) x). lia.
    + pose proof (IH best_i (S i) best). lia.
Qed.

Lemma argmax_lt (l : list R) (i : nat) :
  argmax l = Some i → (i < length l)%nat.
Proof.
  destruct l as [|x l]; [done|]. intros [= <-]. simpl.
  pose proof (argmax_from_bound l 0 1 x). lia.
Qed.

Lemma argmax_is_Some (l : list R) : (0 < length l)%nat → is_Some (argmax l).
Proof. destruct l; simpl; [lia|by eexists]. Qed.

(** The second index of [top_k] is an index of the row, and is not the
    first. *)
Lemma top2_second_spec (l : list R) :
  (2 ≤ length l)%nat →
  ∃ i j, argmax l = Some i ∧ top2_second l = Some j ∧
         (j < length l)%nat ∧ i ≠ j.
Proof.
  intros Hlen.
  destruct (argmax_is_Some l) as [i Hi]; [lia|].
  pose proof (argmax_lt l i Hi) as Hil.
  assert (Hdl : length (delete i l) = (length l - 1)%nat)
    by (apply length_delete; by apply lookup_lt_is_Some).
  destruct (argmax_is_Some (delete i l)) as [j Hj]; [lia|].
  pose proof (argmax_lt _ j Hj) as Hjl.
  exists i, (if decide (j < i)%nat then j else S j).
  split; [done|]. split.
  - unfold top2_second. rewrite Hi; simpl. rewrite Hj; simpl. done.
  - destruct (decide (j < i)%nat); lia.
Qed.

Lemma foldr_Rplus_nonneg (l : list R) :
  Forall (λ x, 0 <= x) l → 0 <= foldr Rplus 0 l.
Proof.
  induction 1 as [|x l Hx _ IH]; simpl; lra.
Qed.

Lemma foldr_Rplus_zero (l : list R) :
  Forall (λ x, x = 0) l → foldr Rplus 0 l = 0.
Proof.
  induction 1 as [|x l Hx _ IH]; simpl; lra.
Qed.

Lemma tsum_nonneg (l : list tval) :
  Forall (λ v, ∃ r, v = Fin r ∧ 0 <= r) l →
  ∃ r, tsum l = Fin r ∧ 0 <= r.
Proof.
  induction 1 as [|v l (r & -> & Hr) _ (s & IH & Hs)]; simpl.
  - exists 0. split; [done|lra].
  - exists (r + s). split; [|lra].
    change (tsum (Fin r :: l)) with (tadd (Fin r) (tsum l)). by rewrite IH.
Qed.

Lemma tdiv_dim_nonneg (r : R) (n : nat) :
  0 <= r → (0 < n)%nat →
  ∃ q, tdiv_dim (Fin r) n = Fin q ∧ 0 <= q.
Proof.
  intros Hr Hn. destruct n as [|n]; [lia|]. cbn [tdiv_dim].
  eexists; split; [done|].
  apply Rdiv_nonneg; [done|]. apply lt_0_INR. lia.
Qed.

Lemma gather_nd_Forall {A} (P : A → Prop) (t k : list A)
    (indices : list nat) :
  Forall P t → gather_nd t indices = Some k → Forall P k.
Proof.
  intros Ht Hk. apply mapM_Some in Hk.
  induction Hk as [|i x indices k Hi _ IH]; constructor; [|done].
  simpl in Hi. exact (Forall_lookup_1 _ _ _ _ Ht Hi).
Qed.

Lemma attraction_term_value (y_true y_pred gt_highest_iou : list box)
    (iou : tensor) (indices : list nat) :
  mapM argmax (t_rows iou) = Some indices →
  gather_nd y_true indices = Some gt_highest_iou →
  length y_pred = length gt_highest_iou →
  attraction_term y_true y_pred iou =
  Some (tdiv_dim
          (Fin (foldr Rplus 0
                  (concat
                     (zip_with
                        (λ p g, zip_with (λ a b, smooth_l1_distance a b 3)
                                         (coords p) (coords g))
                        y_pred gt_highest_iou))))
          (length y_pred)).
Proof.
  intros Hi Hg Hl. unfold attraction_term.
  rewrite Hi; cbn [mbind option_bind]. rewrite Hg; cbn [mbind option_bind].
  by rewrite option_guard_True.
Qed.

(** The indices [attraction_term] gathers the ground truth at. *)
Lemma attraction_term_indices (y_true : list box) (iou : tensor) :
  Forall (λ r, length r = length y_true) (t_rows iou) →
  (0 < length y_true)%nat →
  ∃ indices gt_highest_iou,
    mapM argmax (t_rows iou) = Some indices ∧
    gather_nd y_true indices = Some gt_highest_iou ∧
    length gt_highest_iou = shape0 iou.
Proof.
  intros Hrows Hgt.
  destruct (mapM_is_Some_2 argmax (t_rows iou)) as [indices Hi].
  { eapply Forall_impl; [exact Hrows|]. intros r Hr; simpl in *.
    apply argmax_is_Some. lia. }
  assert (Hb : Forall (λ i, i < length y_true)%nat indices).
  { apply mapM_Some in Hi. clear -Hi Hrows.
    induction Hi as [|r i rows indices Hri _ IH]; [constructor|].
    apply Forall_cons in Hrows as [Hr Hrows]. constructor; [|by apply IH].
    simpl in *. apply argmax_lt in Hri. lia. }
  destruct (gather_nd_defined y_true indices Hb) as [gt Hg].
  exists indices, gt. split; [done|]. split; [done|].
  apply gather_nd_length in Hg. apply length_mapM in Hi.
  unfold shape0. lia.
Qed.

(** X15: on a tensor of IoUs with a row for every predicted box (at least
    one) and a column for every ground-truth box (at least one),
    [attraction_term] raises nothing and is a real number that is not
    negative. *)
Theorem attraction_term_nonneg (y_true y_pred : list box) (iou : tensor) :
  Forall (λ r, length r = length y_true) (t_rows iou) →
  (0 < length y_true)%nat →
  length y_pred = shape0 iou →
  (0 < length y_pred)%nat →
  ∃ r, attraction_term y_true y_pred iou = Some (Fin r) ∧ 0 <= r.
Proof.
  intros Hrows Hgt Hlen Hp.
  destruct (attraction_term_indices y_true iou Hrows Hgt)
    as (indices & gt & Hi & Hg & Hgl).
  rewrite (attraction_term_value _ _ gt _ indices) by (done || lia).
  destruct (tdiv_dim_nonneg
              (foldr Rplus 0
                 (concat
                    (zip_with
                       (λ p g, zip_with (λ a b, smooth_l1_distance a b 3)
                                        (coords p) (coords g))
                       y_pred gt)))
              (length y_pred)) as (q & -> & Hq); [|done|by eauto].
  apply foldr_Rplus_nonneg, Forall_concat, Forall_forall.
  intros row Hrow. apply list_elem_of_lookup in Hrow as [k Hk].
  apply lookup_zip_with_Some in Hk as (p & g & -> & _ & _).
  apply Forall_forall. intros d Hd.
  apply list_elem_of_lookup in Hd as [k' Hk'].
  apply lookup_zip_with_Some in Hk' as (a & b & -> & _ & _).
  apply smooth_l1_distance_bounds. lra.
Qed.

Lemma attraction_term_nonneg_witness :
  ∃ r, attraction_term [Box 0 0 4 4; Box 5 5 9 9] [Box 0 0 4 5]
         (Tensor 2 [[0.8; 0.1]]) = Some (Fin r) ∧ 0 <= r.
Proof.
  apply attraction_term_nonneg.
  - repeat constructor.
  - simpl. lia.
  - reflexivity.
  - simpl. lia.
Defined.

(** X16: when every predicted box is the ground-truth box of its highest
    IoU, [attraction_term] is exactly 0. *)
Theorem attraction_term_perfect (y_true y_pred : list box) (iou : tensor)
    (indices : list nat) :
  mapM argmax (t_rows iou) = Some indices →
  gather_nd y_true indices = Some y_pred →
  (0 < length y_pred)%nat →
  attraction_term y_true y_pred iou = Some (Fin 0).
Proof.
  intros Hi Hg Hp.
  rewrite (attraction_term_value _ _ y_pred _ indices) by done.
  rewrite foldr_Rplus_zero.
  - destruct (length y_pred) as [|n] eqn:Hn; [lia|]. cbn [tdiv_dim].
    do 2 f_equal. unfold Rdiv. apply Rmult_0_l.
  - apply Forall_concat, Forall_forall.
    intros row Hrow. apply list_elem_of_lookup in Hrow as [k Hk].
    apply lookup_zip_with_Some in Hk as (p & g & -> & Hp1 & Hp2).
    assert (p = g) as -> by congruence.
    apply Forall_forall. intros d Hd.
    apply list_elem_of_lookup in Hd as [k' Hk'].
    apply lookup_zip_with_Some in Hk' as (a & b & -> & Ha & Hb).
    assert (a = b) as -> by congruence.
    by apply smooth_l1_distance_bounds.
Qed.

Lemma attraction_term_perfect_witness :
  attraction_term [Box 0 0 4 4; Box 5 5 9 9] [Box 5 5 9 9]
    (Tensor 2 [[0; 1]]) = Some (Fin 0).
Proof.
  apply (attraction_term_perfect _ _ _ [1%nat]).
  - cbn. rewrite decide_True by lra. reflexivity.
  - reflexivity.
  - simpl. lia.
Defined.

(** X17: what the guard [has_data] of [regression_loss_one] keeps away from
    [attraction_term]: without a predicted box the term is 0 / 0, NaN; with
    a predicted box and no ground-truth column, [K.argmax] raises. *)
Theorem attraction_term_without_data (y_true y_pred : list box)
    (cols : nat) (rows : list (list R)) :
  attraction_term y_true [] (Tensor cols []) = Some NaN ∧
  attraction_term y_true y_pred (Tensor 0 ([] :: rows)) = None.
Proof.
  split.
  - unfold attraction_term; cbn. rewrite decide_False by lra.
    rewrite decide_False by lra. done.
  - reflexivity.
Qed.

Lemma mapM_total {A B} (f : A → option B) (g : A → B) (l : list A) :
  (∀ x, f x = Some (g x)) → mapM f l = Some (g <$> l).
Proof.
  intros Hf. apply mapM_Some. induction l; constructor; auto.
Qed.

(** The IoGs that [repulsion_term_gt] sums over, one for every pair. *)
Lemma iog_of_pairs (pairs : list (box * box)) :
  mapM (λ x, bbox_iog [x.1] [x.2]) pairs =
    Some ((λ x, Tensor 1 [[iog_pair x.1 x.2]]) <$> pairs) ∧
  concat (concat (t_rows <$>
            ((λ x, Tensor 1 [[iog_pair x.1 x.2]]) <$> pairs))) =
    (λ x, iog_pair x.1 x.2) <$> pairs.
Proof.
  split.
  - apply mapM_total. intros [p g]. apply bbox_iog_singleton.
  - induction pairs as [|x pairs IH]; [done|].
    cbn. f_equal. exact IH.
Qed.

(** The indices [repulsion_term_gt] gathers the ground truth at. *)
Lemma repulsion_term_gt_indices (y_true : list box) (iou : tensor) :
  Forall (λ r, length r = length y_true) (t_rows iou) →
  (2 ≤ length y_true)%nat →
  ∃ indices gt_2highest_iou,
    mapM top2_second (t_rows iou) = Some indices ∧
    gather_nd y_true indices = Some gt_2highest_iou ∧
    length gt_2highest_iou = shape0 iou.
Proof.
  intros Hrows Hgt.
  destruct (mapM_is_Some_2 top2_second (t_rows iou)) as [indices Hi].
  { eapply Forall_impl; [exact Hrows|]. intros r Hr; simpl in *.
    destruct (top2_second_spec r) as (i & j & _ & Hj & _); [lia|].
    by eexists. }
  assert (Hb : Forall (λ i, i < length y_true)%nat indices).
  { apply mapM_Some in Hi. clear -Hi Hrows Hgt.
    induction Hi as [|r j rows indices Hrj _ IH]; [constructor|].
    apply Forall_cons in Hrows as [Hr Hrows]. constructor; [|by apply IH].
    simpl in *.
    destruct (top2_second_spec r) as (i & j' & _ & Hj & Hlt & _); [lia|].
    rewrite Hrj in Hj. injection Hj as <-. lia. }
  destruct (gather_nd_defined y_true indices Hb) as [gt Hg].
  exists indices, gt. split; [done|]. split; [done|].
  apply gather_nd_length in Hg. apply length_mapM in Hi.
  unfold shape0. lia.
Qed.

(** With at least 2 columns, [repulsion_term_gt] is the branch
    [two_prediction_exists]: the sum of [smooth_ln] over the IoGs of the
    predicted boxes and their second ground-truth boxes, over the number of
    predicted boxes. *)
Lemma repulsion_term_gt_value (y_true y_pred : list box) (iou : tensor)
    (alpha : R) :
  Forall (λ r, length r = length y_true) (t_rows iou) →
  shape1 iou = length y_true →
  (2 ≤ length y_true)%nat →
  length y_pred = shape0 iou →
  ∃ indices gt_2highest_iou,
    mapM top2_second (t_rows iou) = Some indices ∧
    gather_nd y_true indices = Some gt_2highest_iou ∧
    repulsion_term_gt y_true y_pred iou alpha =
      Some (tdiv_dim
              (tsum ((λ x, smooth_ln x alpha) <$>
                       ((λ x : box * box, iog_pair x.1 x.2) <$>
                          zip y_pred gt_2highest_iou)))
              (length y_pred)).
Proof.
  intros Hrows Hcols Hgt Hlen.
  destruct (repulsion_term_gt_indices y_true iou Hrows Hgt)
    as (indices & gt & Hi & Hg & Hgl).
  exists indices, gt. split; [done|]. split; [done|].
  unfold repulsion_term_gt. rewrite decide_True by lia.
  rewrite Hi; cbn [mbind option_bind]. rewrite Hg; cbn [mbind option_bind].
  rewrite option_guard_True by lia.
  destruct (iog_of_pairs (zip y_pred gt)) as [-> Hiog].
  cbn [mbind option_bind]. by rewrite Hiog.
Qed.

(** X18: on a tensor of IoUs with a row for every predicted box (at least
    one) and a column for every ground-truth box (at least two, none of
    area 0), [repulsion_term_gt] with an [alpha] in [[0, 1)] raises nothing
    and is a real number that is not negative. *)
Theorem repulsion_term_gt_nonneg (y_true y_pred : list box) (iou : tensor)
    (alpha : R) :
  Forall (λ r, length r = length y_true) (t_rows iou) →
  shape1 iou = length y_true →
  (2 ≤ length y_true)%nat →
  length y_pred = shape0 iou →
  (0 < length y_pred)%nat →
  Forall (λ g, box_area g ≠ 0) y_true →
  0 <= alpha < 1 →
  ∃ r, repulsion_term_gt y_true y_pred iou alpha = Some (Fin r) ∧ 0 <= r.
Proof.
  intros Hrows Hcols Hgt Hlen Hp _ Halpha.
  destruct (repulsion_term_gt_value y_true y_pred iou alpha)
    as (indices & gt & _ & _ & ->); [done..|].
  destruct (tsum_nonneg
              ((λ x, smooth_ln x alpha) <$>
                 ((λ x : box * box, iog_pair x.1 x.2) <$> zip y_pred gt)))
    as (s & -> & Hs).
  { apply Forall_fmap, Forall_fmap, Forall_forall. intros [p g] _. simpl.
    apply smooth_ln_nonneg; [done|apply Rmax_r]. }
  destruct (tdiv_dim_nonneg s (length y_pred)) as (q & -> & Hq);
    [done|done|by eauto].
Qed.

Lemma repulsion_term_gt_nonneg_witness :
  ∃ r, repulsion_term_gt [Box 0 0 4 4; Box 5 5 9 9] [Box 0 0 4 5]
         (Tensor 2 [[0.8; 0.1]]) 0.5 = Some (Fin r) ∧ 0 <= r.
Proof.
  apply repulsion_term_gt_nonneg.
  - repeat constructor.
  - reflexivity.
  - simpl. lia.
  - reflexivity.
  - simpl. lia.
  - repeat constructor; unfold box_area; simpl; lra.
  - decimals. lra.
Defined.

Lemma argmax_from_spec (l : list R) (best_i i : nat) (best : R) :
  ∃ v, best <= v ∧ Forall (λ x, x <= v) l ∧
       ((argmax_from best_i best i l = best_i ∧ v = best) ∨
        ((i ≤ argmax_from best_i best i l)%nat ∧
         l !! (argmax_from best_i best i l - i)%nat = Some v)).
Proof.
  revert best_i i best. induction l as [|x l IH]; intros best_i i best.
  - exists best. split; [lra|]. split; [constructor|]. by left.
  - simpl. destruct (decide (best < x)) as [Hlt|Hge].
    + destruct (IH i (S i) x) as (v & Hv & Hall & Hpos).
      exists v. split; [lra|]. split; [by constructor|]. right.
      destruct Hpos as [[-> ->]|[Hle Hl]].
      * split; [lia|]. by rewrite Nat.sub_diag.
      * split; [lia|].
        replace (argmax_from i x (S i) l - i)%nat
          with (S (argmax_from i x (S i) l - S i)) by lia.
        done.
    + destruct (IH best_i (S i) best) as (v & Hv & Hall & Hpos).
      exists v. split; [done|]. split; [constructor; [lra|done]|].
      destruct Hpos as [[Heq ->]|[Hle Hl]]; [by left|].
      right. split; [lia|].
      replace (argmax_from best_i best (S i) l - i)%nat
        with (S (argmax_from best_i best (S i) l - S i)) by lia.
      done.
Qed.

Lemma argmax_spec (l : list R) (i : nat) :
  argmax l = Some i →
  ∃ v, l !! i = Some v ∧ Forall (λ x, x <= v) l.
Proof.
  destruct l as [|x l]; [done|]. intros [= <-].
  destruct (argmax_from_spec l 0 1 x) as (v & Hv & Hall & Hpos).
  exists v. split; [|constructor; done].
  destruct Hpos as [[-> ->]|[Hle Hl]]; [done|].
  replace (argmax_from 0 x 1 l) with (S (argmax_from 0 x 1 l - 1)) by lia.
  done.
Qed.

(** X19: in a row of IoUs with at least 2 columns, the ground-truth box
    that [repulsion_term_gt] takes (the second index of [top_k]) is not the
    one that [attraction_term] takes (the [argmax]); its IoU is at most that
    one's, and at least the IoU of every other ground-truth box. *)
Theorem second_highest_iou (row : list R) :
  (2 ≤ length row)%nat →
  ∃ i j vi vj,
    argmax row = Some i ∧ top2_second row = Some j ∧ i ≠ j ∧
    row !! i = Some vi ∧ row !! j = Some vj ∧ vj <= vi ∧
    ∀ k x, k ≠ i → row !! k = Some x → x <= vj.
Proof.
  intros Hlen.
  destruct (argmax_is_Some row) as [i Hi]; [lia|].
  pose proof (argmax_lt row i Hi) as Hil.
  destruct (argmax_spec row i Hi) as (vi & Hvi & Halli).
  assert (Hdl : length (delete i row) = (length row - 1)%nat)
    by (apply length_delete; by apply lookup_lt_is_Some).
  destruct (argmax_is_Some (delete i row)) as [j' Hj']; [lia|].
  destruct (argmax_spec _ j' Hj') as (vj & Hvj & Hallj).
  set (j := if decide (j' < i)%nat then j' else S j').
  assert (Hj : row !! j = Some vj).
  { subst j. destruct (decide (j' < i)%nat).
    - by rewrite list_lookup_delete_lt in Hvj.
    - by rewrite list_lookup_delete_ge in Hvj by lia. }
  exists i, j, vi, vj.
  split; [done|]. split.
  { unfold top2_second. rewrite Hi; simpl. rewrite Hj'; simpl. done. }
  split; [subst j; destruct (decide (j' < i)%nat); lia|].
  split; [done|]. split; [done|]. split.
  - exact (Forall_lookup_1 _ _ _ _ Halli Hj).
  - intros k x Hk Hx.
    destruct (decide (k < i)%nat) as [Hlt|Hge].
    + apply (Forall_lookup_1 _ _ k x Hallj).
      by rewrite list_lookup_delete_lt.
    + destruct k as [|k]; [lia|].
      apply (Forall_lookup_1 _ _ k x Hallj).
      by rewrite list_lookup_delete_ge by lia.
Qed.

Lemma second_highest_iou_witness :
  ∃ i j vi vj,
    argmax [0.2; 0.9; 0.6] = Some i ∧ top2_second [0.2; 0.9; 0.6] = Some j ∧
    i ≠ j ∧ [0.2; 0.9; 0.6] !! i = Some vi ∧ [0.2; 0.9; 0.6] !! j = Some vj ∧
    vj <= vi ∧ ∀ k x, k ≠ i → [0.2; 0.9; 0.6] !! k = Some x → x <= vj.
Proof. apply second_highest_iou. simpl. lia. Defined.

(** ** [regression_loss_one] and [repulsion_loss] *)

(** Every row of the tensor that reaches the two terms has an entry for
    every ground-truth box. *)
Lemma matched_predictions_rows y_true y_pred gt pred iou :
  matched_predictions y_true y_pred = Some (gt, pred, iou) →
  Forall (λ r, length r = length gt) (t_rows iou).
Proof.
  unfold matched_predictions. intros H.
  apply bind_Some in H as ([[w h] len] & _ & H).
  apply bind_Some in H as (g & _ & H).
  apply bind_Some in H as (p & _ & H).
  apply bind_Some in H as (p' & Hp & H).
  apply bind_Some in H as (r' & Hr & H).
  injection H as <- <- <-. cbn [t_rows].
  eapply gather_nd_Forall; [|exact Hr].
  apply bbox_overlap_iou_shape.
Qed.

Lemma has_data_true (gt : list box) (iou : tensor) :
  has_data gt iou = true →
  (0 < shape0 iou)%nat ∧ (0 < shape1 iou)%nat ∧ (0 < length gt)%nat.
Proof.
  unfold has_data. intros H.
  apply andb_true_iff in H as [H H3]. apply andb_true_iff in H as [H1 H2].
  apply bool_decide_eq_true_1 in H1, H2, H3. done.
Qed.

(** The loss of an image whose boxes passed the first half of
    [regression_loss_one]: 0 without data; the attraction term with 1
    ground-truth box; the sum of the two terms with more. *)
Lemma regression_loss_one_value y_true y_pred gt pred iou :
  matched_predictions y_true y_pred = Some (gt, pred, iou) →
  ∃ a b, regression_loss_one y_true y_pred = Some (Fin (a + b)) ∧
         0 <= a ∧ 0 <= b.
Proof.
  intros Hm.
  destruct (matched_predictions_shape _ _ _ _ _ Hm) as [Hs0 Hs1].
  pose proof (matched_predictions_rows _ _ _ _ _ Hm) as Hrows.
  unfold regression_loss_one. rewrite Hm; cbn [mbind option_bind].
  destruct (has_data gt iou) eqn:Hd.
  - apply has_data_true in Hd as (Hd0 & Hd1 & Hd2).
    destruct (attraction_term_nonneg gt pred iou) as (a & -> & Ha);
      [done|done|lia|lia|].
    cbn [mbind option_bind].
    destruct (decide (2 ≤ length gt)%nat) as [H2|H1].
    + destruct (repulsion_term_gt_value gt pred iou 0.5)
        as (indices & gt2 & _ & _ & ->); [done|done|done|lia|].
      destruct (tsum_nonneg
                  ((λ x, smooth_ln x 0.5) <$>
                     ((λ x : box * box, iog_pair x.1 x.2) <$> zip pred gt2)))
        as (s & -> & Hs).
      { apply Forall_fmap, Forall_fmap, Forall_forall. intros [p g] _. simpl.
        apply smooth_ln_nonneg; [decimals; lra|apply Rmax_r]. }
      destruct (tdiv_dim_nonneg s (length pred)) as (q & -> & Hq);
        [done|lia|].
      cbn [mbind option_bind]. exists a, q.
      split; [|done]. unfold tsum; simpl. do 2 f_equal. lra.
    + rewrite repulsion_term_gt_few_columns by lia.
      cbn [mbind option_bind]. exists a, 0.
      split; [|lra]. unfold tsum; simpl. do 2 f_equal. lra.
  - exists 0, 0. split; [|lra]. do 2 f_equal. lra.
Qed.

(** X20: on a target of 4 columns with its first row and a prediction of
    at least 4 columns, [regression_loss_one] raises nothing: no index is
    out of range in [gather_nd], and [K.argmax] and [top_k] run only on
    rows that are long enough. *)
Theorem regression_loss_one_defined (y_true y_pred : tensor) :
  t_cols y_true = 4%nat → rectangular y_true → (0 < shape0 y_true)%nat →
  (4 ≤ t_cols y_pred)%nat → rectangular y_pred →
  is_Some (regression_loss_one y_true y_pred).
Proof.
  intros Hc Hr Hrows Hpc Hpr.
  destruct (matched_predictions_defined y_true y_pred)
    as [[[gt pred] iou] Hm]; [done..|].
  destruct (regression_loss_one_value _ _ _ _ _ Hm) as (a & b & -> & _).
  by eexists.
Qed.

Lemma regression_loss_one_defined_witness :
  is_Some (regression_loss_one target_2_boxes prediction_1_box).
Proof.
  apply regression_loss_one_defined.
  - reflexivity.
  - repeat constructor.
  - unfold shape0; simpl. lia.
  - simpl. lia.
  - repeat constructor.
Defined.

(** X21: for an image whose width and height are not 0 and whose
    ground-truth boxes, once divided by them, have an area that is not 0,
    the loss of [regression_loss_one] is a real number that is not
    negative: neither term can be infinite or NaN. *)
Theorem regression_loss_one_nonneg (y_true y_pred : tensor)
    (image_w image_h : R) (annotations_len : Z)
    (gt pred : list box) (iou : tensor) :
  unpack_row0 y_true = Some (image_w, image_h, annotations_len) →
  image_w ≠ 0 → image_h ≠ 0 →
  matched_predictions y_true y_pred = Some (gt, pred, iou) →
  Forall (λ g, box_area g ≠ 0) gt →
  ∃ r, regression_loss_one y_true y_pred = Some (Fin r) ∧ 0 <= r.
Proof.
  intros _ _ _ Hm _.
  destruct (regression_loss_one_value _ _ _ _ _ Hm) as (a & b & -> & Ha & Hb).
  exists (a + b). split; [done|lra].
Qed.

Lemma regression_loss_one_nonneg_witness :
  ∃ r, regression_loss_one target_2_boxes prediction_1_box = Some (Fin r) ∧
       0 <= r.
Proof.
  eapply (regression_loss_one_nonneg target_2_boxes prediction_1_box
            10 10 2 _ _ _ unpack_target_2_boxes).
  - lra.
  - lra.
  - exact matched_predictions_target_2_boxes.
  - repeat constructor. unfold box_area; simpl. lra.
Defined.

(** X22: [repulsion_loss] gives one loss for every image of the batch, in
    the order of the batch, each the loss of [regression_loss_one] on that
    image alone. *)
Theorem repulsion_loss_per_image (y_true y_pred : list tensor)
    (losses : list tval) :
  repulsion_loss y_true y_pred = Some losses →
  length losses = length y_true ∧
  ∀ i y p, y_true !! i = Some y → y_pred !! i = Some p →
           losses !! i = regression_loss_one y p.
Proof.
  unfold repulsion_loss. intros Hl.
  rewrite option_guard_decide in Hl. destruct (decide _) as [Hlen|]; [|done].
  pose proof (length_mapM _ _ _ Hl) as Hlz.
  rewrite length_zip_with in Hlz.
  split; [lia|].
  intros i y p Hy Hp. apply mapM_Some in Hl.
  assert (Hz : zip y_true y_pred !! i = Some (y, p))
    by (by rewrite lookup_zip_with, Hy; simpl; rewrite Hp).
  destruct (Forall2_lookup_l _ _ _ _ _ Hl Hz) as (v & Hv & Hloss).
  simpl in Hloss. by rewrite Hv, Hloss.
Qed.

Lemma regression_loss_one_target_no_box :
  regression_loss_one target_no_box prediction_1_box = Some (Fin 0).
Proof.
  unfold regression_loss_one. rewrite matched_predictions_target_no_box.
  reflexivity.
Qed.

Lemma repulsion_loss_per_image_witness :
  length [Fin 0; Fin 0] = length [target_no_box; target_no_box] ∧
  ∀ i y p, [target_no_box; target_no_box] !! i = Some y →
           [prediction_1_box; prediction_1_box] !! i = Some p →
           [Fin 0; Fin 0] !! i = regression_loss_one y p.
Proof.
  apply repulsion_loss_per_image.
  unfold repulsion_loss. rewrite option_guard_True by done.
  cbn -[regression_loss_one].
  rewrite regression_loss_one_target_no_box. reflexivity.
Defined.

(** X23: [repulsion_loss] raises exactly when the target batch and the
    prediction batch have different sizes, or [regression_loss_one] raises
    on one of the images. *)
Theorem repulsion_loss_raises (y_true y_pred : list tensor) :
  repulsion_loss y_true y_pred = None ↔
  length y_true ≠ length y_pred ∨
  ∃ i y p, y_true !! i = Some y ∧ y_pred !! i = Some p ∧
           regression_loss_one y p = None.
Proof.
  unfold repulsion_loss. rewrite option_guard_decide.
  destruct (decide (length y_true = length y_pred)) as [Hlen|Hne].
  - rewrite mapM_None, Exists_exists. split.
    + intros ([y p] & Hin & Hnone). right.
      apply list_elem_of_lookup in Hin as [i Hi].
      apply lookup_zip_with_Some in Hi as (y' & p' & [= <- <-] & Hy & Hp).
      by exists i, y, p.
    + intros [?|(i & y & p & Hy & Hp & Hnone)]; [done|].
      exists (y, p). split; [|done].
      apply list_elem_of_lookup. exists i.
      by rewrite lookup_zip_with, Hy; simpl; rewrite Hp.
  - split; [by left|done].
Qed.

(** The rows that pass the filter of [regression_loss_one] have a highest
    IoU above 0.5. *)
Lemma matched_predictions_kept y_true y_pred gt pred iou :
  matched_predictions y_true y_pred = Some (gt, pred, iou) →
  Forall (λ r, tgreater (K_max r) 0.5 = true) (t_rows iou).
Proof.
  unfold matched_predictions. intros H.
  apply bind_Some in H as ([[w h] len] & _ & H).
  apply bind_Some in H as (g & _ & H).
  apply bind_Some in H as (p & _ & H).
  apply bind_Some in H as (p' & _ & H).
  apply bind_Some in H as (r' & Hr & H).
  injection H as <- <- <-. cbn [t_rows].
  apply mapM_Some in Hr.
  set (rows := t_rows (bbox_overlap_iou p g)) in *. clearbody rows.
  set (indices := nonzero_indices _) in *.
  assert (Hidx : Forall (λ i, ∃ r, rows !! i = Some r ∧
                                   tgreater (K_max r) 0.5 = true) indices).
  { apply Forall_forall. intros i Hi. subst indices.
    unfold nonzero_indices in Hi.
    apply elem_of_nonzero_from in Hi as [_ Hi].
    rewrite Nat.sub_0_r in Hi.
    change (map (λ v, tgreater v 0.5) (map K_max rows))
      with ((λ v, tgreater v 0.5) <$> (K_max <$> rows)) in Hi.
    rewrite !list_lookup_fmap in Hi.
    destruct (rows !! i) as [r|]; [|done]. simpl in Hi.
    exists r. split; [done|]. by injection Hi. }
  clearbody indices. clear -Hr Hidx. revert Hidx.
  induction Hr as [|i r rest r' Hi _ IH]; intros Hidx; [constructor|].
  apply Forall_cons in Hidx as [(r0 & Hr0 & Hg) Hidx].
  constructor; [|by apply IH].
  simpl in Hi. by assert (r = r0) as -> by congruence.
Qed.

(** X24: every predicted box that [regression_loss_one] keeps has an IoU
    above 0.5 with some ground-truth box, so that [has_data] holds exactly
    when a predicted box is kept: its two other tests, on the columns and
    on the ground-truth boxes, then hold as well. *)
Theorem has_data_kept (y_true y_pred : tensor) (gt pred : list box)
    (iou : tensor) :
  matched_predictions y_true y_pred = Some (gt, pred, iou) →
  Forall (λ r, ∃ v, v ∈ r ∧ 0.5 < v) (t_rows iou) ∧
  has_data gt iou = bool_decide (0 < length pred)%nat.
Proof.
  intros Hm.
  destruct (matched_predictions_shape _ _ _ _ _ Hm) as [Hs0 Hs1].
  pose proof (matched_predictions_rows _ _ _ _ _ Hm) as Hrows.
  pose proof (matched_predictions_kept _ _ _ _ _ Hm) as Hkept.
  assert (Hall : Forall (λ r, ∃ v, v ∈ r ∧ 0.5 < v) (t_rows iou)).
  { eapply Forall_impl; [exact Hkept|]. intros r Hr; simpl in Hr.
    destruct r as [|x r]; [done|]. cbn in Hr.
    apply bool_decide_eq_true_1 in Hr.
    destruct (argmax_from_spec r 0 1 x) as (v & Hv & Hall & _).
    assert (Hmax : ∀ (l : list R) (a : R), a <= foldl Rmax a l ∧
                     (foldl Rmax a l = a ∨ foldl Rmax a l ∈ l)).
    { clear. induction l as [|y l IH]; intros a; simpl.
      - split; [lra|by left].
      - destruct (IH (Rmax a y)) as [Hle Hin].
        pose proof (Rmax_l a y). split; [lra|].
        destruct Hin as [Heq|Hin].
        + rewrite Heq. unfold Rmax. destruct (Rle_dec a y).
          * right. apply elem_of_cons. by left.
          * by left.
        + right. apply elem_of_cons. by right. }
    exists (foldl Rmax x r). split; [|done].
    destruct (Hmax r x) as [_ [->|Hin]].
    - apply elem_of_cons. by left.
    - apply elem_of_cons. by right. }
  split; [done|].
  unfold has_data. rewrite Hs0, Hs1.
  destruct pred as [|p pred].
  - cbn [length] in *. rewrite (bool_decide_eq_false_2 (0 < 0)%nat) by lia.
    done.
  - destruct (t_rows iou) as [|r rows] eqn:Hr.
    + unfold shape0 in Hs0. rewrite Hr in Hs0. simpl in Hs0. lia.
    + apply Forall_cons in Hrows as [Hlen _].
      apply Forall_cons in Hall as [(v & Hv & _) _].
      destruct r as [|x r]; [by apply elem_of_nil in Hv|].
      simpl in Hlen.
      rewrite (bool_decide_eq_true_2 (0 < length gt)%nat) by lia.
      rewrite (bool_decide_eq_true_2 (0 < length (p :: pred))%nat)
        by (simpl; lia).
      done.
Qed.

Lemma has_data_kept_witness :
  Forall (λ r, ∃ v, v ∈ r ∧ 0.5 < v) (t_rows (Tensor 1 [[1]])) ∧
  has_data [Box (0 / 10) (0 / 10) (4 / 10) (4 / 10)] (Tensor 1 [[1]]) =
    bool_decide (0 < length [Box (0 / 10) (0 / 10) (4 / 10) (4 / 10)])%nat.
Proof.
  apply (has_data_kept target_2_boxes prediction_1_box).
  exact matched_predictions_target_2_boxes.
Defined.

(** ** [smooth_l1] *)

(** The loss [_smooth_l1] computes for an entry is the
    [smooth_l1_distance] of the target and the prediction with
    [delta = sigma]: the two copies of the formula agree. *)
Lemma smooth_l1_entry_distance (sigma regression regression_target : R) :
  smooth_l1_entry (sigma ^ 2) regression regression_target =
  smooth_l1_distance regression_target regression sigma.
Proof. reflexivity. Qed.

Lemma mapM_ext_in {A B} (f g : A → option B) (l : list A) :
  (∀ x, x ∈ l → f x = g x) → mapM f l = mapM g l.
Proof.
  induction l as [|x l IH]; intros Hfg; [done|].
  cbn. rewrite (Hfg x) by (apply elem_of_cons; by left).
  rewrite IH; [done|]. intros y Hy. apply Hfg, elem_of_cons. by right.
Qed.

(** What is gathered depends on the tensor at the indices only. *)
Lemma gather_nd2_ext {A} (t t' : list (list A)) (indices : list (nat * nat)) :
  (∀ b n, (b, n) ∈ indices → t !! b ≫= (.!! n) = t' !! b ≫= (.!! n)) →
  gather_nd2 t indices = gather_nd2 t' indices.
Proof.
  intros H. apply mapM_ext_in. intros [b n] Hin. by apply H.
Qed.

Lemma regression_states_none (y_true : list (list (list R))) :
  Forall (Forall (λ a, ∃ s, a !! 4%nat = Some s ∧ s ≠ 1)) y_true →
  ∃ anchor_state, regression_states y_true = Some anchor_state ∧
                  positive_anchors anchor_state = [].
Proof.
  intros Hall.
  assert (H : ∃ st, regression_states y_true = Some st ∧
                    Forall (Forall (λ s, s ≠ 1)) st).
  { unfold regression_states.
    induction Hall as [|image y_true Himage _ (st & Hst & Hall')].
    - exists []. by split.
    - assert (Hrow : ∃ row, mapM (λ a : list R, a !! 4%nat) image = Some row ∧
                            Forall (λ s, s ≠ 1) row).
      { clear -Himage.
        induction Himage as [|a image (s & Ha & Hs) _ (row & Hrow & Hall)].
        - exists []. by split.
        - exists (s :: row). split; [|by constructor].
          cbn. rewrite Ha. cbn. by rewrite Hrow. }
      destruct Hrow as (row & Hrow & Hall_row).
      exists (row :: st). split; [|by constructor].
      cbn. rewrite Hrow. cbn. by rewrite Hst. }
  destruct H as (st & Hst & Hne). exists st. split; [done|].
  apply nonzero_indices2_none.
  eapply Forall_impl; [exact Hne|]. intros row Hrow.
  eapply Forall_impl; [exact Hrow|]. intros s Hs.
  by apply bool_decide_eq_false_2.
Qed.

(** X25: for a [sigma] that is not 0, a target of 5 channels an anchor and
    a prediction of 4 channels for each anchor of the target, the smooth L1
    loss is exactly 0 when no anchor of the target has the state 1: nothing
    is gathered and the normalizer is [max(1, 0)]. *)
Theorem smooth_l1_no_positive (sigma : R)
    (y_true y_pred : list (list (list R))) :
  sigma ≠ 0 →
  Forall2 (Forall2 (λ a p, length a = 5%nat ∧ length p = 4%nat))
    y_true y_pred →
  Forall (Forall (λ a, ∃ s, a !! 4%nat = Some s ∧ s ≠ 1)) y_true →
  smooth_l1 sigma y_true y_pred = Some 0.
Proof.
  intros _ _ Hall.
  destruct (regression_states_none y_true Hall) as (st & Hst & Hpos).
  unfold smooth_l1. rewrite Hst; cbn [mbind option_bind]. rewrite Hpos.
  cbn. f_equal. lra.
Qed.

Lemma smooth_l1_no_positive_witness :
  smooth_l1 3 [[[0.1; 0.1; 0.1; 0.1; 0]; [0; 0; 0; 0; -1]]]
              [[[0.5; 0.5; 0.5; 0.5]; [1; 2; 3; 4]]] = Some 0.
Proof.
  apply smooth_l1_no_positive.
  - lra.
  - repeat constructor.
  - repeat constructor; eexists; (split; [reflexivity|lra]).
Defined.

(** X26: for a [sigma] that is not 0, a target of 5 channels an anchor and
    two predictions of 4 channels for each anchor of the target, the smooth
    L1 loss does not depend on what is predicted for the anchors whose
    state is not 1: two such predictions that agree on the anchors of
    state 1 have the same loss. *)
Theorem smooth_l1_positive_only (sigma : R)
    (y_true y_pred y_pred' : list (list (list R)))
    (anchor_state : list (list R)) :
  sigma ≠ 0 →
  Forall2 (Forall2 (λ a p, length a = 5%nat ∧ length p = 4%nat))
    y_true y_pred →
  Forall2 (Forall2 (λ a p, length a = 5%nat ∧ length p = 4%nat))
    y_true y_pred' →
  regression_states y_true = Some anchor_state →
  (∀ b n, (b, n) ∈ positive_anchors anchor_state →
          y_pred !! b ≫= (.!! n) = y_pred' !! b ≫= (.!! n)) →
  smooth_l1 sigma y_true y_pred = smooth_l1 sigma y_true y_pred'.
Proof.
  intros _ _ _ Hst Hsame. unfold smooth_l1.
  rewrite Hst; cbn [mbind option_bind].
  by rewrite (gather_nd2_ext y_pred y_pred').
Qed.

Lemma smooth_l1_positive_only_witness :
  smooth_l1 3 [[[0.1; 0.1; 0.1; 0.1; 1]; [0; 0; 0; 0; -1]]]
              [[[0.5; 0.5; 0.5; 0.5]; [1; 2; 3; 4]]] =
  smooth_l1 3 [[[0.1; 0.1; 0.1; 0.1; 1]; [0; 0; 0; 0; -1]]]
              [[[0.5; 0.5; 0.5; 0.5]; [9; 9; 9; 9]]].
Proof.
  apply (smooth_l1_positive_only 3 _ _ _ [[1; -1]]).
  - lra.
  - repeat constructor.
  - repeat constructor.
  - reflexivity.
  - intros b n Hin.
    apply elem_of_nonzero_indices2_test in Hin as (s & Hs & Ht).
    destruct b as [|b]; [|done].
    destruct n as [|[|n]]; [done| |done].
    injection Hs as <-. apply bool_decide_eq_true_1 in Ht. lra.
Defined.

Lemma smooth_l1_entries_nonneg (sigma : R) (regression target : list (list R)) :
  sigma ≠ 0 →
  Forall (λ x, 0 <= x)
    (concat (zip_with (zip_with (smooth_l1_entry (sigma ^ 2)))
                      regression target)).
Proof.
  intros Hs. apply Forall_concat, Forall_forall.
  intros row Hrow. apply list_elem_of_lookup in Hrow as [k Hk].
  apply lookup_zip_with_Some in Hk as (p & g & -> & _ & _).
  apply Forall_forall. intros d Hd.
  apply list_elem_of_lookup in Hd as [k' Hk'].
  apply lookup_zip_with_Some in Hk' as (a & b & -> & _ & _).
  rewrite smooth_l1_entry_distance. by apply smooth_l1_distance_bounds.
Qed.

Lemma smooth_l1_entries_zero (sigma : R) (target : list (list R)) :
  sigma ≠ 0 →
  Forall (λ x, x = 0)
    (concat (zip_with (zip_with (smooth_l1_entry (sigma ^ 2)))
                      target target)).
Proof.
  intros Hs. apply Forall_concat, Forall_forall.
  intros row Hrow. apply list_elem_of_lookup in Hrow as [k Hk].
  apply lookup_zip_with_Some in Hk as (p & g & -> & Hp & Hg).
  assert (p = g) as -> by congruence.
  apply Forall_forall. intros d Hd.
  apply list_elem_of_lookup in Hd as [k' Hk'].
  apply lookup_zip_with_Some in Hk' as (a & b & -> & Ha & Hb).
  assert (a = b) as -> by congruence.
  rewrite smooth_l1_entry_distance. by apply smooth_l1_distance_bounds.
Qed.

(** X27: for a [sigma] that is not 0 the smooth L1 loss is never negative,
    and it is 0 when the prediction is the regression target itself. *)
Theorem smooth_l1_nonneg (sigma v : R)
    (y_true y_pred : list (list (list R))) :
  sigma ≠ 0 →
  smooth_l1 sigma y_true y_pred = Some v →
  0 <= v ∧ (y_pred = map (map (take 4)) y_true → v = 0).
Proof.
  intros Hs Hv. unfold smooth_l1 in Hv.
  apply bind_Some in Hv as (st & _ & Hv).
  apply bind_Some in Hv as (regression & Hr & Hv).
  apply bind_Some in Hv as (target & Ht & Hv).
  injection Hv as <-.
  assert (Hn : 0 < INR (1 `max` length (positive_anchors st)))
    by (apply lt_0_INR; lia).
  split.
  - apply Rdiv_nonneg; [|done].
    by apply foldr_Rplus_nonneg, smooth_l1_entries_nonneg.
  - intros ->. rewrite Hr in Ht. injection Ht as <-.
    rewrite foldr_Rplus_zero by (by apply smooth_l1_entries_zero).
    unfold Rdiv. apply Rmult_0_l.
Qed.

Lemma smooth_l1_one_anchor :
  smooth_l1 3 [[[0.1; 0.1; 0.1; 0.1; 1]]] [[[0.1; 0.1; 0.1; 0.1]]] =
  Some (foldr Rplus 0
          [smooth_l1_entry (3 ^ 2) 0.1 0.1; smooth_l1_entry (3 ^ 2) 0.1 0.1;
           smooth_l1_entry (3 ^ 2) 0.1 0.1; smooth_l1_entry (3 ^ 2) 0.1 0.1]
        / INR 1).
Proof.
  unfold smooth_l1, positive_anchors.
  cbn -[Rdiv smooth_l1_entry INR pow].
  rewrite (bool_decide_eq_true_2 (1 = 1)) by lra.
  reflexivity.
Qed.

Lemma smooth_l1_nonneg_witness :
  0 <= foldr Rplus 0
         [smooth_l1_entry (3 ^ 2) 0.1 0.1; smooth_l1_entry (3 ^ 2) 0.1 0.1;
          smooth_l1_entry (3 ^ 2) 0.1 0.1; smooth_l1_entry (3 ^ 2) 0.1 0.1]
       / INR 1 ∧
  ([[[0.1; 0.1; 0.1; 0.1]]] =
     map (map (take 4)) [[[0.1; 0.1; 0.1; 0.1; 1]]] →
   foldr Rplus 0
     [smooth_l1_entry (3 ^ 2) 0.1 0.1; smooth_l1_entry (3 ^ 2) 0.1 0.1;
      smooth_l1_entry (3 ^ 2) 0.1 0.1; smooth_l1_entry (3 ^ 2) 0.1 0.1]
   / INR 1 = 0).
Proof.
  apply (smooth_l1_nonneg 3 _ _ _ ltac:(lra) smooth_l1_one_anchor).
Defined.

(** ** [focal] again *)

(** X28: for a target and two predictions of the same batch and anchors,
    where an anchor of the target has one channel more than its prediction,
    the focal loss does not depend on what is predicted for the ignored
    anchors (state -1): two such predictions that agree on the other
    anchors have the same loss. *)
Theorem focal_ignored_predictions (binary_crossentropy power : R → R → R)
    (alpha gamma : R) (y_true y_pred y_pred' : list (list (list R)))
    (anchor_state : list (list R)) :
  Forall2 (Forall2 (λ a p, length a = S (length p))) y_true y_pred →
  Forall2 (Forall2 (λ a p, length a = S (length p))) y_true y_pred' →
  anchor_states y_true = Some anchor_state →
  (∀ b n, (b, n) ∈ not_ignored anchor_state →
          y_pred !! b ≫= (.!! n) = y_pred' !! b ≫= (.!! n)) →
  focal binary_crossentropy power alpha gamma y_true y_pred =
  focal binary_crossentropy power alpha gamma y_true y_pred'.
Proof.
  intros _ _ Hst Hsame. unfold focal.
  rewrite Hst; cbn [mbind option_bind].
  by rewrite (gather_nd2_ext y_pred y_pred').
Qed.

Lemma focal_ignored_predictions_witness :
  focal (λ t p, - (t * ln p + (1 - t) * ln (1 - p))) Rpower 0.25 2.0
        [[[1; 0; 1]; [0; 0; -1]]] [[[0.9; 0.1]; [0.5; 0.5]]] =
  focal (λ t p, - (t * ln p + (1 - t) * ln (1 - p))) Rpower 0.25 2.0
        [[[1; 0; 1]; [0; 0; -1]]] [[[0.9; 0.1]; [0.7; 0.2]]].
Proof.
  apply (focal_ignored_predictions _ _ _ _ _ _ _ [[1; -1]]).
  - repeat constructor.
  - repeat constructor.
  - reflexivity.
  - intros b n Hin.
    apply elem_of_nonzero_indices2_test in Hin as (s & Hs & Ht).
    destruct b as [|b]; [|done].
    destruct n as [|[|n]]; [done| |done].
    injection Hs as <-. apply bool_decide_eq_true_1 in Ht. done.
Defined.

(** ** [bin/evaluate.py] *)

Lemma contains_slash_app (d f : String.string) :
  contains "/"%string (String.append d (String.String "/"%char f)) = true.
Proof.
  induction d as [|c d IH]; simpl.
  - done.
  - rewrite IH. apply orb_true_r.
Qed.

Lemma basename_app (d f : String.string) :
  contains "/"%string f = false →
  basename (String.append d (String.String "/"%char f)) = f.
Proof.
  intros Hf. induction d as [|c d IH]; simpl.
  - by rewrite Hf.
  - by rewrite contains_slash_app.
Qed.

Lemma basename_no_slash (f : String.string) :
  contains "/"%string f = false → basename f = f.
Proof.
  destruct f as [|c f]; [done|]. simpl. intros H.
  apply orb_false_iff in H as [Hc Hf]. rewrite Hf.
  destruct (Ascii.eqb c "/"%char) eqn:Hcs; [|done].
  apply Ascii.eqb_eq in Hcs as ->. done.
Qed.

(** X29: the custom objects [main] loads depend on the file name of the
    model only: a name of a backbone in a directory of the path selects
    nothing, and a path that ends with a slash, whose file name is empty,
    leaves [custom_objects] unbound. *)
Theorem custom_objects_file_name (directory file : String.string) :
  contains "/"%string file = false →
  custom_objects
    (String.append directory (String.String "/"%char file)) =
    custom_objects file ∧
  custom_objects
    (String.append directory (String.String "/"%char String.EmptyString)) =
    None.
Proof.
  intros Hf. unfold custom_objects.
  rewrite (basename_app directory file Hf), (basename_no_slash file Hf).
  by rewrite (basename_app directory String.EmptyString eq_refl).
Qed.

Lemma custom_objects_file_name_witness :
  custom_objects "/models/resnet50/vgg16_csv.h5"%string =
    custom_objects "vgg16_csv.h5"%string ∧
  custom_objects "/models/resnet50/"%string = None.
Proof.
  apply (custom_objects_file_name "/models/resnet50"%string
           "vgg16_csv.h5"%string).
  reflexivity.
Defined.

Lemma sum_bounds (lo hi : R) (values : list R) :
  Forall (λ v, lo <= v <= hi) values →
  INR (length values) * lo <= foldr Rplus 0 values <=
  INR (length values) * hi.
Proof.
  induction 1 as [|v values Hv _ IH].
  - simpl. lra.
  - cbn [length foldr]. rewrite S_INR. lra.
Qed.

(** X30: the mAP that [main] prints lies between any two bounds of the
    average precisions, so in [[0, 1]] when they are; for an evaluation
    without a label the division is by 0 and raises. *)
Theorem mean_average_precision_bounds (lo hi : R)
    (average_precisions : list (Z * R)) :
  average_precisions ≠ [] →
  Forall (λ item, lo <= item.2 <= hi) average_precisions →
  mean_average_precision [] = None ∧
  ∃ m, mean_average_precision average_precisions = Some m ∧ lo <= m <= hi.
Proof.
  intros Hne Hall. split; [done|].
  unfold mean_average_precision.
  destruct average_precisions as [|item items] eqn:Ha; [done|].
  rewrite <- Ha in *. cbn [length].
  replace (length average_precisions) with (S (length items))
    by (by rewrite Ha).
  eexists; split; [done|].
  assert (Hb : Forall (λ v, lo <= v <= hi) (average_precisions.*2))
    by (by apply Forall_fmap).
  apply sum_bounds in Hb. rewrite length_fmap in Hb.
  replace (length average_precisions) with (S (length items)) in Hb
    by (by rewrite Ha).
  assert (Hn : 0 < INR (S (length items))) by (apply lt_0_INR; lia).
  split.
  - apply Rmult_le_reg_r with (INR (S (length items))); [done|].
    unfold Rdiv. rewrite Rmult_assoc, Rinv_l by lra. lra.
  - apply Rmult_le_reg_r with (INR (S (length items))); [done|].
    unfold Rdiv. rewrite Rmult_assoc, Rinv_l by lra. lra.
Qed.

Lemma mean_average_precision_bounds_witness :
  mean_average_precision [] = None ∧
  ∃ m, mean_average_precision [(0%Z, 0.5); (1%Z, 1)] = Some m ∧ 0 <= m <= 1.
Proof.
  apply mean_average_precision_bounds.
  - done.
  - repeat constructor; simpl; decimals; lra.
Defined.
